(** * ForexStrategies: the event-driven backtester

    A shallow embedding of [src/event_driven_trading]: the historic bar
    source ([data.py]), the orchestrator loop ([backtest.py]), the two
    reference strategies ([mac.py], [intraday_mr.py]) and the broker-backed
    execution handler ([ib_execution.py]).

    Python objects are records, dictionaries are [gmap]s, lists are lists,
    and a method is a computation in a state-and-exception monad over the
    objects it can reach.  An exception leaves the mutations made before it
    in place, as in Python.  Prices are exact rationals ([Q]); floating
    point rounding and NaNs inside the data are not modelled.  The wall
    clock and the libraries (pandas, numpy, statsmodels, the broker's
    messages) are the surroundings of the code: they appear as parameters,
    and where an example needs their values these are computed exactly. *)

From Stdlib Require Import ZArith QArith Qabs Lia Lqa Wellfounded Relation_Operators.
From stdpp Require Import gmap strings pretty list fin_maps.

Local Open Scope string_scope.
Local Open Scope list_scope.

(** ** The Python runtime the code relies on *)

Module Py.

Inductive Exn : Type :=
| KeyError
| IndexError
| AttributeError
| StopIteration.

#[global] Instance Exn_eq_dec : EqDecision Exn.
Proof. solve_decision. Defined.

Inductive Res (A : Type) : Type :=
| Val (a : A)
| Raise (e : Exn).
Arguments Val {A} a.
Arguments Raise {A} e.

(** [LookupError] is the base class of [KeyError] and [IndexError]. *)
Definition is_LookupError (e : Exn) : bool :=
  match e with
  | KeyError | IndexError => true
  | _ => false
  end.

(** A method body: it reads and writes the store [S] and either
    returns or raises. *)
Definition M (S A : Type) : Type := S -> Res A * S.

Definition ret {S A} (a : A) : M S A := fun s => (Val a, s).

Definition bind {S A B} (m : M S A) (k : A -> M S B) : M S B :=
  fun s =>
    match m s with
    | (Val a, s') => k a s'
    | (Raise e, s') => (Raise e, s')
    end.

Definition raise {S A} (e : Exn) : M S A := fun s => (Raise e, s).

Definition gets {S A} (f : S -> A) : M S A := fun s => (Val (f s), s).

Definition modify {S} (f : S -> S) : M S unit := fun s => (Val tt, f s).

(** [try: body / except e: handler / else: els].  Only [body] is
    protected; an exception of another class passes through. *)
Definition try_except_else {S A B}
    (body : M S A) (e : Exn) (handler : M S B) (els : A -> M S B) : M S B :=
  fun s =>
    match body s with
    | (Val a, s') => els a s'
    | (Raise e', s') =>
        if decide (e' = e) then handler s' else (Raise e', s')
    end.

(** [for x in l: body x]; an exception leaves the loop. *)
Fixpoint for_each {S A} (l : list A) (body : A -> M S unit) : M S unit :=
  match l with
  | [] => ret tt
  | x :: l' => bind (body x) (fun _ => for_each l' body)
  end.

(** Run a method of an inner object inside a larger store. *)
Definition lift {S T A} (get : T -> S) (set : S -> T -> T) (m : M S A)
  : M T A :=
  fun t => let '(r, s') := m (get t) in (r, set s' t).

(** [l[start:]] *)
Definition slice_from {A} (start : Z) (l : list A) : list A :=
  let len := Z.of_nat (length l) in
  let i := if (start <? 0)%Z then Z.max 0 (start + len) else Z.min start len in
  drop (Z.to_nat i) l.

(** [l[i]] *)
Definition index {A} (i : Z) (l : list A) : Res A :=
  let len := Z.of_nat (length l) in
  let j := if (i <? 0)%Z then (i + len)%Z else i in
  if (j <? 0)%Z then Raise IndexError
  else match l !! Z.to_nat j with
       | Some x => Val x
       | None => Raise IndexError
       end.

(** The values stored in the strategies' flag dictionaries. *)
Inductive Value : Type :=
| VStr (s : string)
| VBool (b : bool).

(** Truth value testing: a string is false only when empty. *)
Definition truthy (v : Value) : bool :=
  match v with
  | VStr s => negb (String.eqb s "")
  | VBool b => b
  end.

(** [np.mean]: [None] stands for the NaN of an empty array. *)
Definition mean (a : list Q) : option Q :=
  match a with
  | [] => None
  | _ => Some (foldr Qplus 0%Q a / inject_Z (Z.of_nat (length a)))%Q
  end.

(** [a > b] and [a < b] on floats; false when either side is NaN. *)
Definition gt (a b : option Q) : bool :=
  match a, b with
  | Some x, Some y => match (x ?= y)%Q with Gt => true | _ => false end
  | _, _ => false
  end.

Definition lt (a b : option Q) : bool := gt b a.

End Py.

Export Py.

Declare Scope py_scope.
Delimit Scope py_scope with py.
Notation "x <- c1 ;; c2" := (Py.bind c1 (fun x => c2))
  (at level 100, c1 at next level, right associativity) : py_scope.
Notation "c1 ;; c2" := (Py.bind c1 (fun _ => c2))
  (at level 100, right associativity) : py_scope.
Local Open Scope py_scope.

(** ** Events *)

(** Modelled from the spec: [event.py] is not among the sources.  The
    spec gives the closed variant Market, Signal, Order, Fill and the
    fields of each; the constructor argument order is the one of the
    calls in [mac.py], [intraday_mr.py] and [ib_execution.py], and the
    [type] tags are the strings [backtest.py] dispatches on. *)
Inductive Event : Type :=
| MarketEvent
| SignalEvent (strategy_id : Z) (symbol : string) (datetime : Z)
              (signal_type : string) (strength : Q)
| OrderEvent (symbol : string) (order_type : string) (quantity : Z)
             (direction : string)
| FillEvent (timeindex : Z) (symbol : string) (exchange : string)
            (quantity : Z) (direction : string) (fill_cost : Q).

Definition event_type (e : Event) : string :=
  match e with
  | MarketEvent => "MARKET"
  | SignalEvent _ _ _ _ _ => "SIGNAL"
  | OrderEvent _ _ _ _ => "ORDER"
  | FillEvent _ _ _ _ _ _ => "FILL"
  end.

(** ** data.py: HistoricCSVDataHandler *)

Module Data.

(** One row of a frame: the six value columns named in [read_csv]. *)
Record Row : Type := mkRow {
  open : Q; high : Q; low : Q; close : Q; volume : Q; adj_close : Q }.

(** What [iterrows()] yields: the index label and the row. *)
Abbreviation Bar := (Z * Row)%type.

Record Handler : Type := mkHandler {
  symbol_list : list string;
  (** the rows each symbol's [iterrows()] generator has yet to yield *)
  symbol_data : gmap string (list Bar);
  latest_symbol_data : gmap string (list Bar);
  continue_backtest : bool }.

(** The store the bar source works in: itself, the event queue it was
    given by reference (oldest event first), and the console. *)
Record World : Type := mkWorld {
  events : list Event;
  stdout : list string;
  bars : Handler }.

Definition set_bars (h : Handler) (w : World) : World :=
  mkWorld (events w) (stdout w) h.

Definition set_symbol_data (d : gmap string (list Bar)) (h : Handler) :=
  mkHandler (symbol_list h) d (latest_symbol_data h) (continue_backtest h).

Definition set_latest_symbol_data (d : gmap string (list Bar)) (h : Handler) :=
  mkHandler (symbol_list h) (symbol_data h) d (continue_backtest h).

Definition set_continue_backtest (b : bool) (h : Handler) :=
  mkHandler (symbol_list h) (symbol_data h) (latest_symbol_data h) b.

(** [self.events.put(e)] *)
Definition put (e : Event) : M World unit :=
  modify (fun w => mkWorld (events w ++ [e]) (stdout w) (bars w)).

Definition print (s : string) : M World unit :=
  modify (fun w => mkWorld (events w) (stdout w ++ [s]) (bars w)).

Definition msg_not_available : string :=
  "That symbol is not available in the historical data set.".

(** [__init__] with [_open_convert_csv_files].  pandas is outside the
    repository: [comb_index] is the union of the symbols' native indexes
    and [frame s t] the row of [s] at label [t] after
    [reindex(index=comb_index, method='pad')], so that [iterrows()]
    yields one pair per label of [comb_index] for every symbol. *)
Definition init (symbols : list string) (comb_index : list Z)
    (frame : string -> Z -> Row) : Handler :=
  mkHandler symbols
    (foldl (fun d s => <[s := (fun t => (t, frame s t)) <$> comb_index]> d)
           ∅ symbols)
    (foldl (fun d s => <[s := []]> d) ∅ symbols)
    true.

(** [next(self._get_new_bar(symbol))]: a fresh generator over the shared
    iterator [self.symbol_data[symbol]], asked for one item. *)
Definition next_get_new_bar (symbol : string) : M World Bar :=
  fun w =>
    match symbol_data (bars w) !! symbol with
    | None => (Raise KeyError, w)
    | Some [] => (Raise StopIteration, w)
    | Some (b :: rest) =>
        (Val b, set_bars (set_symbol_data (<[symbol := rest]> (symbol_data (bars w))) (bars w)) w)
    end.

(** [self.latest_symbol_data[s].append(bar)] *)
Definition append_latest (s : string) (bar : Bar) : M World unit :=
  fun w =>
    match latest_symbol_data (bars w) !! s with
    | None => (Raise KeyError, w)
    | Some l =>
        (Val tt, set_bars (set_latest_symbol_data (<[s := l ++ [bar]]> (latest_symbol_data (bars w))) (bars w)) w)
    end.

(** The pairs [iterrows()] yields are never [None], so every bar taken is
    appended. *)
Definition update_bars : M World unit :=
  l <- gets (fun w => symbol_list (bars w));;
  for_each l (fun s =>
    try_except_else (next_get_new_bar s) StopIteration
      (modify (fun w => set_bars (set_continue_backtest false (bars w)) w))
      (fun bar => append_latest s bar));;
  put MarketEvent.

Definition get_latest_bar (symbol : string) : M World Bar :=
  try_except_else
    (fun w => match latest_symbol_data (bars w) !! symbol with
              | Some l => (Val l, w)
              | None => (Raise KeyError, w)
              end)
    KeyError
    (print msg_not_available;; raise KeyError)
    (fun bars_list w => (index (-1) bars_list, w)).

Definition get_latest_bars (symbol : string) (N : Z) : M World (list Bar) :=
  bars_list <- gets (fun w => latest_symbol_data (bars w) !! symbol);;
  match bars_list with
  | None => print msg_not_available;; raise KeyError
  | Some [] => ret []
  | Some l => ret (slice_from (- N) l)
  end.

(** [getattr(row, val_type)] for the column labels of the frame; the
    attributes pandas itself gives a Series are not modelled. *)
Definition getattr (r : Row) (val_type : string) : Res Q :=
  if String.eqb val_type "open" then Val (open r)
  else if String.eqb val_type "high" then Val (high r)
  else if String.eqb val_type "low" then Val (low r)
  else if String.eqb val_type "close" then Val (close r)
  else if String.eqb val_type "volume" then Val (volume r)
  else if String.eqb val_type "adj_close" then Val (adj_close r)
  else Raise AttributeError.

Definition columns : list string :=
  ["open"; "high"; "low"; "close"; "volume"; "adj_close"].

Definition get_latest_bar_value (symbol val_type : string)
  : M World (option Q) :=
  bars_list <- gets (fun w => latest_symbol_data (bars w) !! symbol);;
  match bars_list with
  | None => print msg_not_available;; raise KeyError
  | Some [] => ret None
  | Some l =>
      fun w => match index (-1) l with
               | Val b => match getattr (snd b) val_type with
                          | Val v => (Val (Some v), w)
                          | Raise e => (Raise e, w)
                          end
               | Raise e => (Raise e, w)
               end
  end.

(** The list comprehension [[getattr(b[1], val_type) for b in bars_list]]. *)
Fixpoint getattr_all (val_type : string) (l : list Bar) : Res (list Q) :=
  match l with
  | [] => Val []
  | b :: l' =>
      match getattr (snd b) val_type with
      | Raise e => Raise e
      | Val v => match getattr_all val_type l' with
                 | Raise e => Raise e
                 | Val vs => Val (v :: vs)
                 end
      end
  end.

Definition get_latest_bars_values (symbol val_type : string) (N : Z)
  : M World (list Q) :=
  try_except_else (get_latest_bars symbol N) KeyError
    (print msg_not_available;; raise KeyError)
    (fun bars_list w => (getattr_all val_type bars_list, w)).

Definition get_latest_bar_datetime (symbol : string) : M World Z :=
  bars_list <- gets (fun w => latest_symbol_data (bars w) !! symbol);;
  match bars_list with
  | None => raise KeyError
  | Some l =>
      fun w => match index (-1) l with
               | Val b => (Val (fst b), w)
               | Raise e => (Raise e, w)
               end
  end.

End Data.

(** ** mac.py: MovingAverageCrossStrategy *)

Module Mac.

Record Strategy : Type := mkStrategy {
  short_window : Z;
  long_window : Z;
  bought : gmap string Value }.

(** The strategy, the bar source with the queue both were given, and the
    wall clock: [utcnow] is what [datetime.datetime.utcnow()] returns
    now, and [clock] gives the readings of later moments, in order.  The
    clock belongs to the surroundings; nothing constrains its readings. *)
Record World : Type := mkWorld {
  self : Strategy;
  dw : Data.World;
  utcnow : Z;
  clock : nat -> Z }.

Definition set_dw (d : Data.World) (w : World) : World :=
  mkWorld (self w) d (utcnow w) (clock w).

Definition set_bought (b : gmap string Value) (w : World) : World :=
  mkWorld (mkStrategy (short_window (self w)) (long_window (self w)) b)
          (dw w) (utcnow w) (clock w).

(** Time passes: the clock moves on to its next reading. *)
Definition elapse (w : World) : World :=
  mkWorld (self w) (dw w) (clock w 0%nat) (fun i => clock w (S i)).

Definition tick : M World unit := modify elapse.

Definition data {A} (m : M Data.World A) : M World A := lift dw set_dw m.

(** [self.symbol_list] is the bar source's own list object. *)
Definition symbol_list (w : World) : list string :=
  Data.symbol_list (Data.bars (dw w)).

Definition _calculate_initial_bought (symbols : list string)
  : gmap string Value :=
  foldl (fun bought s => <[s := VStr "OUT"]> bought) ∅ symbols.

Definition init (bars : Data.Handler) (short long : Z) : Strategy :=
  mkStrategy short long (_calculate_initial_bought (Data.symbol_list bars)).

(** [self.bought[symbol]] *)
Definition get_bought (symbol : string) : M World Value :=
  fun w => match bought (self w) !! symbol with
           | Some v => (Val v, w)
           | None => (Raise KeyError, w)
           end.

Definition put_bought (symbol : string) (v : Value) : M World unit :=
  modify (fun w => set_bought (<[symbol := v]> (bought (self w))) w).

Definition emit (symbol : string) (sig_dir : string) : M World unit :=
  dt <- gets utcnow;;
  data (Data.put (SignalEvent 1 symbol dt sig_dir 1)).

(** One pass of the loop over [self.symbol_list].  The pass reads the
    clock once ([dt = datetime.datetime.utcnow()]): [utcnow] is that
    reading. *)
Definition calculate_signals_symbol (symbol : string) : M World unit :=
  N <- gets (fun w => long_window (self w));;
  n <- gets (fun w => short_window (self w));;
  bars <- data (Data.get_latest_bars_values symbol "adj_close" N);;
  bar_date <- data (Data.get_latest_bar_datetime symbol);;
  if (0 <? length bars)%nat then
    let short_sma := mean (slice_from (- n) bars) in
    let long_sma := mean (slice_from (- N) bars) in
    is_long <- (if gt short_sma long_sma
                then b <- get_bought symbol;; ret (negb (truthy b))
                else ret false);;
    if (is_long : bool) then
      data (Data.print ("LONG: " +:+ pretty bar_date));;
      emit symbol "LONG";;
      put_bought symbol (VBool true)
    else
      is_exit <- (if lt short_sma long_sma
                  then b <- get_bought symbol;; ret (truthy b)
                  else ret false);;
      if (is_exit : bool) then
        data (Data.print ("SHORT: " +:+ pretty bar_date));;
        emit symbol "EXIT";;
        put_bought symbol (VBool false)
      else ret tt
  else ret tt.

(** One turn of the loop: the pass, and the time that passes before
    the next one. *)
Definition loop_turn (symbol : string) : M World unit :=
  calculate_signals_symbol symbol;; tick.

(** The loop; each pass takes its own reading of the clock. *)
Definition calculate_signals (event : Event) : M World unit :=
  if String.eqb (event_type event) "MARKET" then
    l <- gets symbol_list;;
    for_each l loop_turn
  else ret tt.

End Mac.

(** ** intraday_mr.py: IntradayOLSMRStrategy *)

Module IntradayMr.

Record Strategy : Type := mkStrategy {
  ols_window : Z;
  zscore_low : Q;
  zscore_high : Q;
  pair : string * string;
  datetime : Z;
  long_market : bool;
  short_market : bool;
  (** [None] until the attribute is first assigned *)
  hedge_ratio : option Q }.

(** The strategy and the bar source with the queue both were given.  The
    strategy reads its bars through the [DataHandler] interface; the
    handler of [data.py] stands for the one it is run with. *)
Record World : Type := mkWorld {
  self : Strategy;
  dw : Data.World }.

Definition set_dw (d : Data.World) (w : World) : World := mkWorld (self w) d.

Definition set_long_market (b : bool) (w : World) : World :=
  let s := self w in
  mkWorld (mkStrategy (ols_window s) (zscore_low s) (zscore_high s) (pair s)
                      (datetime s) b (short_market s) (hedge_ratio s)) (dw w).

Definition set_short_market (b : bool) (w : World) : World :=
  let s := self w in
  mkWorld (mkStrategy (ols_window s) (zscore_low s) (zscore_high s) (pair s)
                      (datetime s) (long_market s) b (hedge_ratio s)) (dw w).

Definition set_hedge_ratio (h : Q) (w : World) : World :=
  let s := self w in
  mkWorld (mkStrategy (ols_window s) (zscore_low s) (zscore_high s) (pair s)
                      (datetime s) (long_market s) (short_market s) (Some h))
          (dw w).

Definition data {A} (m : M Data.World A) : M World A := lift dw set_dw m.

(** [__init__]; [now] is the clock reading taken at construction. *)
Definition init (now : Z) (ols_window : Z) (zscore_low zscore_high : Q)
  : Strategy :=
  mkStrategy ols_window zscore_low zscore_high ("AREX", "WLL") now
             false false None.

(** [self.hedge_ratio] *)
Definition get_hedge_ratio : M World Q :=
  fun w => match hedge_ratio (self w) with
           | Some h => (Val h, w)
           | None => (Raise AttributeError, w)
           end.

Definition Qleb (a b : Q) : bool :=
  match (a ?= b)%Q with Gt => false | _ => true end.

Definition calculate_xy_signals (zscore_last : Q)
  : M World (option Event * option Event) :=
  p0 <- gets (fun w => fst (pair (self w)));;
  p1 <- gets (fun w => snd (pair (self w)));;
  dt <- gets (fun w => datetime (self w));;
  h <- get_hedge_ratio;;
  let hr := Qabs h in
  hi <- gets (fun w => zscore_high (self w));;
  lo <- gets (fun w => zscore_low (self w));;
  long <- gets (fun w => long_market (self w));;
  short <- gets (fun w => short_market (self w));;
  if Qleb zscore_last (- hi) && negb long then
    modify (set_long_market true);;
    ret (Some (SignalEvent 1 p0 dt "LONG" 1), Some (SignalEvent 1 p1 dt "SHORT" hr))
  else if Qleb (Qabs zscore_last) lo && long then
    modify (set_long_market false);;
    ret (Some (SignalEvent 1 p0 dt "EXIT" 1), Some (SignalEvent 1 p1 dt "EXIT" 1))
  else if Qleb hi zscore_last && negb short then
    modify (set_short_market true);;
    ret (Some (SignalEvent 1 p0 dt "SHORT" 1), Some (SignalEvent 1 p1 dt "LONG" hr))
  else if Qleb (Qabs zscore_last) lo && short then
    modify (set_short_market false);;
    ret (Some (SignalEvent 1 p0 dt "EXIT" 1), Some (SignalEvent 1 p1 dt "EXIT" 1))
  else ret (None, None).

Section Numerics.

(** statsmodels and numpy are outside the repository:
    [ols_fit y x] stands for [sm.OLS(y, x).fit().params[0]] and
    [zscore h y x] for the last entry of the standardised spread
    [y - h * x]. *)
Variable ols_fit : list Q -> list Q -> Q.
Variable zscore : Q -> list Q -> list Q -> Q.

Definition calculate_signals_for_pairs : M World unit :=
  p <- gets (fun w => pair (self w));;
  N <- gets (fun w => ols_window (self w));;
  y <- data (Data.get_latest_bars_values (fst p) "close" N);;
  x <- data (Data.get_latest_bars_values (snd p) "close" N);;
  if (N <=? Z.of_nat (length y))%Z && (N <=? Z.of_nat (length x))%Z then
    modify (set_hedge_ratio (ols_fit y x));;
    h <- get_hedge_ratio;;
    let zscore_last := zscore h y x in
    sig <- calculate_xy_signals zscore_last;;
    match sig with
    | (Some y_signal, Some x_signal) =>
        data (Data.put y_signal);;
        data (Data.put x_signal)
    | _ => ret tt
    end
  else ret tt.

Definition calculate_signals (event : Event) : M World unit :=
  if String.eqb (event_type event) "MARKET" then calculate_signals_for_pairs
  else ret tt.

End Numerics.

End IntradayMr.

(** ** The numerics the pairs strategy calls

    statsmodels and numpy are outside the repository.  For a single
    regressor and no intercept, [sm.OLS(y, x).fit().params[0]] is the
    least-squares slope of [y] on [x]; [mean()] and [std()] of an array
    are its mean and its population standard deviation.  They are
    computed here on exact rationals. *)

Module Numerics.

Definition total (a : list Q) : Q := foldr Qplus 0%Q a.

Definition dot (a b : list Q) : Q := total (zip_with Qmult a b).

Definition ols_fit (y x : list Q) : Q := (dot x y / dot x x)%Q.

(** [y - h * x] *)
Definition spread (h : Q) (y x : list Q) : list Q :=
  zip_with (fun yi xi => (yi - h * xi)%Q) y x.

Definition average (a : list Q) : Q :=
  (total a / inject_Z (Z.of_nat (length a)))%Q.

Definition variance (a : list Q) : Q :=
  average ((fun v => ((v - average a) * (v - average a))%Q) <$> a).

(** The square root of a rational that is the square of one. *)
Definition Qsqrt (q : Q) : option Q :=
  let r := Qred q in
  let n := Z.sqrt (Qnum r) in
  let d := Z.sqrt (Zpos (Qden r)) in
  if ((n * n =? Qnum r) && (d * d =? Zpos (Qden r)))%Z
  then Some (n # Z.to_pos d)%Q
  else None.

(** [((spread - spread.mean()) / spread.std())[-1]] where that is a
    rational number.  There is none when the standard deviation is zero
    (the float is then NaN) and when the quotient is irrational. *)
Definition zscore_last (h : Q) (y x : list Q) : option Q :=
  let s := spread h y x in
  let d := (List.last s 0 - average s)%Q in
  let v := variance s in
  if Qeq_bool v 0 then None
  else match Qsqrt (d * d / v) with
       | Some r => Some (match (d ?= 0)%Q with Lt => (- r)%Q | _ => r end)
       | None => None
       end.

(** The z-score handed to the rules, on the inputs where [zscore_last]
    has a value; the inputs used below are shown to be such. *)
Definition zscore (h : Q) (y x : list Q) : Q :=
  default 0%Q (zscore_last h y x).

End Numerics.

(** ** ib_execution.py: IBExecutionHandler *)

Module IbExecution.

Record Contract : Type := mkContract {
  m_symbol : string; m_secType : string; m_exchange : string;
  m_primaryExch : string; m_currency : string }.

Record Order : Type := mkOrder {
  m_orderType : string; m_totalQuantity : Z; m_action : string }.

(** The messages of the broker session, with the attributes the handler
    reads from each kind. *)
Inductive Msg : Type :=
| OpenOrderMsg (orderId : Z) (contract : Contract) (order : Order)
| OrderStatusMsg (orderId : Z) (status : string) (filled : Z)
                 (avgFillPrice : Q)
| OtherMsg (name : string).

Definition typeName (msg : Msg) : string :=
  match msg with
  | OpenOrderMsg _ _ _ => "openOrder"
  | OrderStatusMsg _ _ _ _ => "orderStatus"
  | OtherMsg n => n
  end.

(** One value of [fill_dict]: the dictionary with the keys
    [symbol], [exchange], [direction] and [filled]. *)
Record Entry : Type := mkEntry {
  symbol : string; exchange : string; direction : string; filled : bool }.

Record Handler : Type := mkHandler {
  order_routing : string;
  currency : string;
  fill_dict : gmap Z Entry;
  order_id : Z }.

Record World : Type := mkWorld {
  self : Handler;
  events : list Event;
  stdout : list string;
  utcnow : Z }.

Definition set_fill_dict (d : gmap Z Entry) (w : World) : World :=
  let h := self w in
  mkWorld (mkHandler (order_routing h) (currency h) d (order_id h))
          (events w) (stdout w) (utcnow w).

Definition put (e : Event) : M World unit :=
  modify (fun w => mkWorld (self w) (events w ++ [e]) (stdout w) (utcnow w)).

Definition print (s : string) : M World unit :=
  modify (fun w => mkWorld (self w) (events w) (stdout w ++ [s]) (utcnow w)).

(** The names bound by the [def] statements of the class body. *)
Definition class_body : list string :=
  ["__init__"; "_error_handler"; "_reply_handler"; "create_tws_connection";
   "create_initial_order_id"; "register_handlers"; "create_contract";
   "create_order"; "create_fill_dict_entry"; "create_fill"; "execute_order"].

(** Modelled from the spec: [execution.py], with the base class
    [ExecutionHandler], is not among the sources.  The spec gives the
    execution role the single operation [execute_order]. *)
Definition base_body : list string := ["execute_order"].

Definition hasattr (name : string) : bool :=
  bool_decide (name ∈ class_body ++ base_body).

(** [__init__]: the three helpers are looked up on [self] by the
    names written at the call sites. *)
Definition init (order_routing currency : string) : Res Handler :=
  if hasattr "_create_tws_connection" then
    if hasattr "_create_initial_order_id" then
      if hasattr "_register_handlers" then
        Val (mkHandler order_routing currency ∅ 1)
      else Raise AttributeError
    else Raise AttributeError
  else Raise AttributeError.

(** [msg.orderId], for the messages that have the attribute. *)
Definition orderId_of (msg : Msg) : option Z :=
  match msg with
  | OpenOrderMsg orderId _ _ => Some orderId
  | OrderStatusMsg orderId _ _ _ => Some orderId
  | OtherMsg _ => None
  end.

(** The line feed written as [\n] in the source. *)
Definition newline : string := String (Ascii.ascii_of_nat 10) EmptyString.

(** The dictionary display on the right is evaluated before the
    subscript on the left: a message without [contract] raises before
    [orderId] is read. *)
Definition create_fill_dict_entry (msg : Msg) : M World unit :=
  match msg with
  | OpenOrderMsg orderId contract order =>
      modify (fun w =>
        set_fill_dict
          (<[orderId := mkEntry (m_symbol contract) (m_exchange contract)
                                (m_action order) false]> (fill_dict (self w)))
          w)
  | _ => raise AttributeError
  end.

(** [fd = self.fill_dict[msg.orderId]] comes first; [msg.filled] and
    [msg.avgFillPrice] are read after it, and before anything is
    changed. *)
Definition create_fill (msg : Msg) : M World unit :=
  match orderId_of msg with
  | None => raise AttributeError
  | Some orderId =>
      d <- gets (fun w => fill_dict (self w));;
      match d !! orderId with
      | None => raise KeyError
      | Some fd =>
          match msg with
          | OrderStatusMsg _ _ msg_filled avgFillPrice =>
              now <- gets utcnow;;
              let fill_event :=
                FillEvent now (symbol fd) (exchange fd) msg_filled
                          (direction fd) avgFillPrice in
              modify (fun w =>
                set_fill_dict
                  (<[orderId := mkEntry (symbol fd) (exchange fd)
                                        (direction fd) true]>
                     (fill_dict (self w)))
                  w);;
              put fill_event
          | _ => raise AttributeError
          end
      end
  end.

Section Console.

(** [str(msg)], the text the broker library gives a message. *)
Variable str : Msg -> string.

(** [print("Server Error: %s" % msg)] *)
Definition _error_handler (msg : Msg) : M World unit :=
  print ("Server Error: " +:+ str msg).

Section LateBinding.

(** [self.<name>] for a method taking one message.  Python resolves
    the name when the call is made. *)
Variable getattr : string -> option (Msg -> M World unit).

Definition call (name : string) (msg : Msg) : M World unit :=
  match getattr name with
  | Some method => method msg
  | None => raise AttributeError
  end.

Definition _reply_handler (msg : Msg) : M World unit :=
  h <- gets self;;
  match msg with
  | OpenOrderMsg orderId _ _ =>
      if bool_decide (orderId = order_id h)
         && negb (bool_decide (is_Some (fill_dict h !! orderId)))
      then call "_create_fill_dict_entry" msg
      else ret tt
  | OrderStatusMsg orderId status _ _ =>
      if String.eqb status "Filled"
         && match fill_dict h !! orderId with
            | Some fd => negb (filled fd)
            | None => false
            end
      then call "_create_fill" msg
      else ret tt
  | OtherMsg _ => ret tt
  end;;
  print ("Server Response: " +:+ typeName msg +:+ ", " +:+ str msg
         +:+ newline).

End LateBinding.

(** The one-message methods an instance has, by name (the reply handler
    itself, which no call site names, is left out). *)
Definition class_attrs (name : string) : option (Msg -> M World unit) :=
  if String.eqb name "_error_handler" then Some _error_handler
  else if String.eqb name "create_fill_dict_entry" then Some create_fill_dict_entry
  else if String.eqb name "create_fill" then Some create_fill
  else None.

(** The binding the call sites expect: each helper also reachable under
    its name with a leading underscore.  Not what the class provides;
    used to state what the handler would do if the names agreed. *)
Definition underscored_attrs (name : string) : option (Msg -> M World unit) :=
  if String.eqb name "_create_fill_dict_entry" then Some create_fill_dict_entry
  else if String.eqb name "_create_fill" then Some create_fill
  else class_attrs name.

(** The messages of a session, delivered in order; a callback that
    raises does not stop the delivery of later messages. *)
Fixpoint deliver (getattr : string -> option (Msg -> M World unit))
    (msgs : list Msg) (w : World) : World :=
  match msgs with
  | [] => w
  | msg :: rest => deliver getattr rest (snd (_reply_handler getattr msg w))
  end.

End Console.

End IbExecution.

(** ** backtest.py: Backtest *)

Module Backtest.

(** What an observer of a run sees, oldest first. *)
Inductive Obs : Type :=
| ObsUpdateBars (pending : list Event)
    (** [update_bars()] is called while [pending] is in the queue *)
| ObsGet (e : Event)
    (** [events.get(False)] returned [e] *)
| ObsCall (method : string) (e : Event)
    (** a method of a role is called with [e] *)
| ObsPut (e : Event).
    (** a role called [events.put(e)] *)

Section Roles.

(** The four injected objects (bar source, strategy, portfolio,
    execution handler).  The roles only ever [put] on the queue they
    were given: a method returns the events it enqueued, in order. *)
Variable R : Type.
Definition Method : Type := R -> Res unit * R * list Event.

Variable continue_backtest : R -> bool.
Variable update_bars : Method.
Variable calculate_signals : Event -> Method.
Variable update_timeindex : Event -> Method.
Variable update_signal : Event -> Method.
Variable execute_order : Event -> Method.
Variable update_fill : Event -> Method.

Record State : Type := mkState {
  roles : R;
  events : list Event;
  signals : nat;
  orders : nat;
  fills : nat;
  (** ghost: the observations so far; no code reads it *)
  trace : list Obs }.

Definition observe (o : list Obs) : M State unit :=
  modify (fun b => mkState (roles b) (events b) (signals b) (orders b)
                           (fills b) (trace b ++ o)).

(** Run a role's method: its puts land at the back of the queue. *)
Definition run_method (m : Method) : M State unit :=
  fun b =>
    let '(r, roles', new) := m (roles b) in
    (r, mkState roles' (events b ++ new) (signals b) (orders b) (fills b)
                (trace b ++ (ObsPut <$> new))).

Definition call (name : string) (m : Event -> Method) (e : Event)
  : M State unit :=
  observe [ObsCall name e];; run_method (m e).

Definition _handle_market_event (event : Event) : M State unit :=
  call "calculate_signals" calculate_signals event;;
  call "update_timeindex" update_timeindex event.

Definition _handle_signal_event (event : Event) : M State unit :=
  modify (fun b => mkState (roles b) (events b) (S (signals b)) (orders b)
                           (fills b) (trace b));;
  call "update_signal" update_signal event.

Definition _handle_order_event (event : Event) : M State unit :=
  modify (fun b => mkState (roles b) (events b) (signals b) (S (orders b))
                           (fills b) (trace b));;
  call "execute_order" execute_order event.

Definition _handle_fill_event (event : Event) : M State unit :=
  modify (fun b => mkState (roles b) (events b) (signals b) (orders b)
                           (S (fills b)) (trace b));;
  call "update_fill" update_fill event.

(** The [if]/[elif] chain on [event.type]. *)
Definition dispatch (event : Event) : M State unit :=
  if String.eqb (event_type event) "MARKET" then _handle_market_event event
  else if String.eqb (event_type event) "SIGNAL" then _handle_signal_event event
  else if String.eqb (event_type event) "ORDER" then _handle_order_event event
  else if String.eqb (event_type event) "FILL" then _handle_fill_event event
  else ret tt.

(** [self.events.get(False)]: [None] stands for [queue.Empty]. *)
Definition get : M State (option Event) :=
  fun b =>
    match events b with
    | [] => (Val None, b)
    | e :: q =>
        (Val (Some e),
         mkState (roles b) q (signals b) (orders b) (fills b)
                 (trace b ++ [ObsGet e]))
    end.

(** The inner [while True]; [None] when [fuel] iterations were not
    enough to reach the [break]. *)
Fixpoint handle_events (fuel : nat) (b : State) : option (Res unit * State) :=
  match fuel with
  | O => None
  | S fuel' =>
      match get b with
      | (Val None, b') => Some (Val tt, b')
      | (Val (Some event), b') =>
          match dispatch event b' with
          | (Val _, b'') => handle_events fuel' b''
          | (Raise x, b'') => Some (Raise x, b'')
          end
      | (Raise x, b') => Some (Raise x, b')
      end
  end.

Definition call_update_bars : M State unit :=
  q <- gets events;;
  observe [ObsUpdateBars q];;
  run_method update_bars.

(** The outer [while True]; the heartbeat sleep changes no state. *)
Fixpoint _run_backtest (fuel : nat) (b : State) : option (Res unit * State) :=
  match fuel with
  | O => None
  | S fuel' =>
      if continue_backtest (roles b) then
        match call_update_bars b with
        | (Raise x, b') => Some (Raise x, b')
        | (Val _, b') =>
            match handle_events fuel' b' with
            | None => None
            | Some (Raise x, b'') => Some (Raise x, b'')
            | Some (Val _, b'') => _run_backtest fuel' b''
            end
        end
      else Some (Val tt, b)
  end.

(** [__init__]: a fresh queue and zeroed counters. *)
Definition init (r : R) : State := mkState r [] 0 0 0 [].

End Roles.

(** Readings of a trace. *)
Definition gets_of (t : list Obs) : list Event :=
  omap (fun o => match o with ObsGet e => Some e | _ => None end) t.

Definition puts_of (t : list Obs) : list Event :=
  omap (fun o => match o with ObsPut e => Some e | _ => None end) t.

Definition calls_of (t : list Obs) : list (string * Event) :=
  omap (fun o => match o with ObsCall m e => Some (m, e) | _ => None end) t.

(** The role methods each tag is routed to. *)
Definition route (e : Event) : list (string * Event) :=
  match e with
  | MarketEvent => [("calculate_signals", e); ("update_timeindex", e)]
  | SignalEvent _ _ _ _ _ => [("update_signal", e)]
  | OrderEvent _ _ _ _ => [("execute_order", e)]
  | FillEvent _ _ _ _ _ _ => [("update_fill", e)]
  end.

Arguments mkState {R}.
Arguments roles {R}.
Arguments events {R}.
Arguments signals {R}.
Arguments orders {R}.
Arguments fills {R}.
Arguments trace {R}.
Arguments observe {R}.
Arguments run_method {R}.
Arguments call {R}.
Arguments dispatch {R}.
Arguments get {R}.
Arguments handle_events {R}.
Arguments call_update_bars {R}.
Arguments _run_backtest {R}.
Arguments init {R}.

End Backtest.

(** * Vocabulary of the statements *)

Module DataSpec.

Import Data.

(** The states of the bar source and its surroundings in a run: built
    by [__init__], advanced by [update_bars], while the other roles use
    the queue and the console. *)
Inductive reachable : World -> Prop :=
| reach_init ev out symbols idx frame :
    reachable (mkWorld ev out (init symbols idx frame))
| reach_update w :
    reachable w -> reachable (snd (update_bars w))
| reach_io w ev out :
    reachable w -> reachable (mkWorld ev out (bars w)).

(** A handler keeps a history for exactly the symbols it lists. *)
Definition tracks (h : Handler) : Prop :=
  ∀ s, s ∈ symbol_list h ↔ is_Some (latest_symbol_data h !! s).

(** Every listed symbol has a stream. *)
Definition streams (h : Handler) : Prop :=
  ∀ s, s ∈ symbol_list h → is_Some (symbol_data h !! s).

(** All listed streams have the same number of rows left. *)
Definition synced (h : Handler) : Prop :=
  ∃ n, ∀ s, s ∈ symbol_list h →
       ∃ rows, symbol_data h !! s = Some rows ∧ length rows = n.

(** The symbol's underlying series has no row left. *)
Definition exhausted (h : Handler) (s : string) : bool :=
  match symbol_data h !! s with
  | Some [] => true
  | _ => false
  end.

(** What one pass of the loop of [update_bars] does to one symbol. *)
Definition advance (s : string) (h : Handler) : Handler :=
  match symbol_data h !! s, latest_symbol_data h !! s with
  | Some (b :: rest), Some hist =>
      set_latest_symbol_data (<[s := hist ++ [b]]> (latest_symbol_data h))
        (set_symbol_data (<[s := rest]> (symbol_data h)) h)
  | Some [], _ => set_continue_backtest false h
  | _, _ => h
  end.

Definition loop_body (s : string) : M World unit :=
  try_except_else (next_get_new_bar s) StopIteration
    (modify (fun w => set_bars (set_continue_backtest false (bars w)) w))
    (fun bar => append_latest s bar).

(** A lookup fails with [KeyError] and leaves the bar source and the
    queue as they were. *)
Definition fails_untracked {A} (m : M World A) (w : World) : Prop :=
  ∃ w', m w = (Raise KeyError, w') ∧ bars w' = bars w ∧ events w' = events w.

(** [n] further calls of [update_bars]. *)
Definition update_bars_n (n : nat) (w : World) : World :=
  Nat.iter n (fun w => snd (update_bars w)) w.

End DataSpec.

Module MacSpec.

(** The number of bars observed so far for a symbol. *)
Definition available (w : Data.World) (s : string) : nat :=
  match Data.latest_symbol_data (Data.bars w) !! s with
  | Some hist => length hist
  | None => 0
  end.

Definition is_signal_for (s : string) (e : Event) : bool :=
  match e with
  | SignalEvent _ s' _ _ _ => String.eqb s' s
  | _ => false
  end.

(** The SignalEvents for [s] in a queue, in order. *)
Definition signals_for (s : string) (q : list Event) : list Event :=
  List.filter (is_signal_for s) q.

(** The two means the strategy compares at a Market event. *)
Definition short_sma (w : Mac.World) (bars : list Q) : option Q :=
  mean (slice_from (- Mac.short_window (Mac.self w)) bars).

Definition long_sma (w : Mac.World) (bars : list Q) : option Q :=
  mean (slice_from (- Mac.long_window (Mac.self w)) bars).

(** A timestep as the orchestrator drives it: the bar source advances,
    then the strategy handles the MarketEvent. *)
Definition timestep (w : Mac.World) : Mac.World :=
  snd (Mac.calculate_signals MarketEvent
         (Mac.set_dw (snd (Data.update_bars (Mac.dw w))) w)).

End MacSpec.

Module PairsSpec.

Import IntradayMr.

(** The two linked signals of a transition: the [y] leg with strength
    1, then the [x] leg. *)
Definition pair_signals (w : World) (ydir xdir : string) (xstrength : Q)
  : list Event :=
  [SignalEvent 1 (fst (pair (self w))) (datetime (self w)) ydir 1;
   SignalEvent 1 (snd (pair (self w))) (datetime (self w)) xdir xstrength].

(** The conditions of the four rules on the z-score [z]. *)
Definition enter_long (w : World) (z : Q) : Prop :=
  (z <= - zscore_high (self w))%Q ∧ long_market (self w) = false.

Definition exit_long (w : World) (z : Q) : Prop :=
  (Qabs z <= zscore_low (self w))%Q ∧ long_market (self w) = true.

Definition enter_short (w : World) (z : Q) : Prop :=
  (zscore_high (self w) <= z)%Q ∧ short_market (self w) = false.

Definition exit_short (w : World) (z : Q) : Prop :=
  (Qabs z <= zscore_low (self w))%Q ∧ short_market (self w) = true.

(** Both legs have a full window: the bar source returns [y] and [x]
    for them, each of at least [ols_window] closes. *)
Definition full_windows (w : World) (y x : list Q) : Prop :=
  Data.get_latest_bars_values (fst (pair (self w))) "close"
    (ols_window (self w)) (dw w) = (Val y, dw w)
  ∧ Data.get_latest_bars_values (snd (pair (self w))) "close"
      (ols_window (self w)) (dw w) = (Val x, dw w)
  ∧ (ols_window (self w) ≤ Z.of_nat (length y))%Z
  ∧ (ols_window (self w) ≤ Z.of_nat (length x))%Z.

(** What a Market event changed. *)
Definition emitted (w w' : World) (new : list Event) : Prop :=
  Data.events (dw w') = Data.events (dw w) ++ new.

Definition flags (w : World) : bool * bool :=
  (long_market (self w), short_market (self w)).

End PairsSpec.

Module IbSpec.

Import IbExecution.

(** The message reports order [id] as filled. *)
Definition is_filled_for (id : Z) (msg : Msg) : bool :=
  match msg with
  | OrderStatusMsg orderId status _ _ =>
      bool_decide (orderId = id) && String.eqb status "Filled"
  | _ => false
  end.


Section Session.

Variable str : Msg -> string.
Variable getattr : string -> option (Msg -> M World unit).

(** The number of events the handler enqueues while handling [msg]. *)
Definition enqueued (msg : Msg) (w : World) : nat :=
  length (events (snd (_reply_handler str getattr msg w))) - length (events w).

(** The FillEvents produced for order [id] over a session. *)
Fixpoint fills_for (id : Z) (msgs : list Msg) (w : World) : nat :=
  match msgs with
  | [] => 0
  | msg :: rest =>
      (if is_filled_for id msg then enqueued msg w else 0)
      + fills_for id rest (snd (_reply_handler str getattr msg w))
  end.

End Session.


End IbSpec.

Module BacktestSpec.

Import Backtest.

(** Nothing is lost and nothing is misrouted: the events enqueued so
    far are the handled ones followed by the pending ones, and the role
    calls so far are those the tags of the handled events ask for. *)
Definition settled {R} (b : State R) : Prop :=
  puts_of (trace b) = gets_of (trace b) ++ events b
  ∧ calls_of (trace b) = concat (route <$> gets_of (trace b)).

(** At every call of [update_bars()] in the trace the queue is empty,
    every event enqueued before it has been popped, oldest first, and
    each popped event has been passed to the roles of its tag. *)
Definition boundaries_ok (t : list Obs) : Prop :=
  ∀ i q, t !! i = Some (ObsUpdateBars q) →
    q = []
    ∧ puts_of (take i t) = gets_of (take i t)
    ∧ calls_of (take i t) = concat (route <$> gets_of (take i t)).

(** A stretch of trace without a call of [update_bars()]. *)
Definition quiet (l : list Obs) : Prop :=
  Forall (fun o => ∀ q, o ≠ ObsUpdateBars q) l.

(** The stage of the pipeline an event belongs to. *)
Definition rank (e : Event) : nat :=
  match e with
  | MarketEvent => 3
  | SignalEvent _ _ _ _ _ => 2
  | OrderEvent _ _ _ _ => 1
  | FillEvent _ _ _ _ _ _ => 0
  end.

(** A role method follows the pipeline below stage [k], on the role
    states [Inv] describes: when it returns it leaves the roles in such a
    state, it has enqueued only events of a stage before [k], and it has
    not put back any data ([left] bounds the bars still to come). *)
Definition follows {R} (Inv : R -> Prop) (left : R -> nat) (k : nat)
    (m : Event -> Method R) : Prop :=
  ∀ e r u, Inv r → fst (fst (m e r)) = Val u →
    Inv (snd (fst (m e r)))
    ∧ (left (snd (fst (m e r))) ≤ left r)%nat
    ∧ Forall (fun e' => rank e' < k) (snd (m e r)).

(** The bar source runs dry: every call of [update_bars()] made while
    [continue_backtest] holds uses up some of what is left. *)
Definition runs_dry {R} (Inv : R -> Prop) (left : R -> nat)
    (continue_backtest : R -> bool) (update_bars : Method R) : Prop :=
  ∀ r u, Inv r → continue_backtest r = true →
    fst (fst (update_bars r)) = Val u →
    Inv (snd (fst (update_bars r)))
    ∧ (left (snd (fst (update_bars r))) < left r)%nat.

Section Explained.

Context {R : Type}.
Variable update_bars : Method R.
Variables calculate_signals update_timeindex update_signal execute_order
          update_fill : Event -> Method R.

(** The method of a role, by the name under which its call is
    observed. *)
Definition method_named (name : string) : option (Event -> Method R) :=
  if String.eqb name "calculate_signals" then Some calculate_signals
  else if String.eqb name "update_timeindex" then Some update_timeindex
  else if String.eqb name "update_signal" then Some update_signal
  else if String.eqb name "execute_order" then Some execute_order
  else if String.eqb name "update_fill" then Some update_fill
  else None.

(** [explains r0 t res r]: the trace [t] is what the roles did, starting
    in state [r0].  Every call it records was made, on the role state
    left by the calls before it; the puts recorded after a call are the
    events that call enqueued, in order; nothing follows a call that
    raised.  [res] is what the last call returned or raised and [r] the
    state it left the roles in. *)
Inductive explains (r0 : R) : list Obs -> Res unit -> R -> Prop :=
| explains_nil : explains r0 [] (Val tt) r0
| explains_get t r e :
    explains r0 t (Val tt) r ->
    explains r0 (t ++ [ObsGet e]) (Val tt) r
| explains_call t r name m e res r' new :
    explains r0 t (Val tt) r ->
    method_named name = Some m ->
    m e r = (res, r', new) ->
    explains r0 (t ++ ObsCall name e :: (ObsPut <$> new)) res r'
| explains_update t r q res r' new :
    explains r0 t (Val tt) r ->
    update_bars r = (res, r', new) ->
    explains r0 (t ++ ObsUpdateBars q :: (ObsPut <$> new)) res r'.

End Explained.

(** The number of queued events of stage [k]. *)
Definition count (k : nat) (q : list Event) : nat :=
  length (List.filter (fun e => Nat.eqb (rank e) k) q).

Definition measure (q : list Event) : nat * (nat * (nat * nat)) :=
  (count 3 q, (count 2 q, (count 1 q, count 0 q))).

(** Queues compared stage by stage, latest stage first. *)
Definition shorter : relation (nat * (nat * (nat * nat))) :=
  slexprod _ _ Nat.lt (slexprod _ _ Nat.lt (slexprod _ _ Nat.lt Nat.lt)).

End BacktestSpec.

(** Concrete inputs used below. *)
Module Examples.

Import Data DataSpec.

Definition row (p : Q) : Row := mkRow p p p p 0 p.

(** A frame whose every price at label [t] is [t]. *)
Definition rising (s : string) (t : Z) : Row := row (inject_Z t).

(** One symbol with two rows on disk, freshly constructed. *)
Definition w_two : World := mkWorld [] [] (init ["AAPL"] [1; 2]%Z rising).

(** The same source after both rows have been observed. *)
Definition w_end : World := update_bars_n 2 w_two.

(** Prices 2, 1, 3 at the labels 1, 2, 3. *)
Definition dip (s : string) (t : Z) : Row :=
  row (if (t =? 1)%Z then 2 else if (t =? 2)%Z then 1 else 3).

Definition w_dip : World := mkWorld [] [] (init ["AAPL"] [1; 2; 3]%Z dip).

(** A freshly constructed crossover strategy on a bar source, under a
    clock whose readings are all 0. *)
Definition mac_world (short long : Z) (w : World) : Mac.World :=
  Mac.mkWorld (Mac.init (bars w) short long) w 0 (fun _ => 0%Z).

(** Windows 1 and 2 on the rising prices 1, 2, both observed: the
    strategy is about to handle its first cross of the short mean above
    the long one. *)
Definition mac_first_cross : Mac.World := mac_world 1 2 w_end.

(** Windows 1 and 10 on the prices 2, 1, 3: the state in which the third
    MarketEvent is handled, after two full timesteps. *)
Definition mac_third_bar : Mac.World :=
  let w2 := Nat.iter 2 MacSpec.timestep (mac_world 1 10 w_dip) in
  Mac.set_dw (snd (update_bars (Mac.dw w2))) w2.

(** The closes of a pair over eighteen bars: the [y] leg stays at 34
    for sixteen bars, drops to 17 and comes back to 32.9375, while the
    [x] leg stays at 1. *)
Definition pairs_frame (s : string) (t : Z) : Row :=
  row (if String.eqb s "AREX"
       then (if (t <=? 16)%Z then 34 else if (t =? 17)%Z then 17 else 527 # 16)
       else 1)%Q.

Definition pairs_index : list Z := Z.of_nat <$> seq 1 18.

Definition w_pairs : World :=
  mkWorld [] [] (init ["AREX"; "WLL"] pairs_index pairs_frame).

(** [IntradayOLSMRStrategy(bars, events, ols_window=17)], constructed
    when the clock reads 0: the thresholds are the defaults 0.5 and
    3.0. *)
Definition pairs_fresh (w : World) : IntradayMr.World :=
  IntradayMr.mkWorld (IntradayMr.init 0 17 (1 # 2) 3) w.

(** A timestep as the orchestrator drives it: the bar source advances,
    then the strategy handles the MarketEvent. *)
Definition pairs_timestep (w : IntradayMr.World) : IntradayMr.World :=
  snd (IntradayMr.calculate_signals Numerics.ols_fit Numerics.zscore
         MarketEvent
         (IntradayMr.set_dw (snd (update_bars (IntradayMr.dw w))) w)).

(** The state in which the [n]th MarketEvent is handled, after [n - 1]
    full timesteps. *)
Definition pairs_at_bar (n : nat) : IntradayMr.World :=
  let w := Nat.iter (Nat.pred n) pairs_timestep (pairs_fresh w_pairs) in
  IntradayMr.set_dw (snd (update_bars (IntradayMr.dw w))) w.

(** The windows of the seventeenth and of the eighteenth bar. *)
Definition y17 : list Q := replicate 16 34%Q ++ [17%Q].
Definition y18 : list Q := replicate 15 34%Q ++ [17%Q; (527 # 16)%Q].
Definition x17 : list Q := replicate 17 1%Q.

(** A handler that has submitted order 1 and holds its entry, not yet
    filled; the queue is empty. *)
Definition ib_pending : IbExecution.World :=
  IbExecution.mkWorld
    (IbExecution.mkHandler "SMART" "USD"
       {[ 1%Z := IbExecution.mkEntry "AAPL" "SMART" "BUY" false ]} 2)
    [] [] 0.

(** A handler as [__init__] would leave it, were it to return. *)
Definition ib_fresh : IbExecution.World :=
  IbExecution.mkWorld (IbExecution.mkHandler "SMART" "USD" ∅ 1) [] [] 0.

Definition msg_open : IbExecution.Msg :=
  IbExecution.OpenOrderMsg 1
    (IbExecution.mkContract "AAPL" "STK" "SMART" "SMART" "USD")
    (IbExecution.mkOrder "MKT" 100 "BUY").

Definition msg_filled : IbExecution.Msg :=
  IbExecution.OrderStatusMsg 1 "Filled" 100 (5 # 2).

(** A text for the messages on the console: the type name in angle
    brackets (the library's own text also lists the fields). *)
Definition msg_text (msg : IbExecution.Msg) : string :=
  "<" +:+ IbExecution.typeName msg +:+ ">".

(** Roles for a complete run.  The bar source and the crossover
    strategy are the ones above; the queue they were given is read as
    their outbox.  [portfolio.py] and [execution.py] are not among the
    sources: the stand-ins place a market order of 100 per signal and
    fill every order at once. *)
Definition clear_outbox (r : Mac.World) : Mac.World :=
  Mac.set_dw (mkWorld [] (stdout (Mac.dw r)) (bars (Mac.dw r))) r.

Definition outbox (m : M Mac.World unit) : Backtest.Method Mac.World :=
  fun r =>
    let '(res, r') := m (clear_outbox r) in
    (res, clear_outbox r', events (Mac.dw r')).

Definition demo_continue (r : Mac.World) : bool :=
  continue_backtest (bars (Mac.dw r)).

Definition demo_update_bars : Backtest.Method Mac.World :=
  outbox (Mac.data update_bars).

Definition demo_calculate_signals (e : Event) : Backtest.Method Mac.World :=
  outbox (Mac.calculate_signals e).

Definition demo_update_timeindex (e : Event) : Backtest.Method Mac.World :=
  fun r => (Val tt, r, []).

Definition demo_update_signal (e : Event) : Backtest.Method Mac.World :=
  fun r =>
    (Val tt, r,
     match e with
     | SignalEvent _ s _ d _ =>
         [OrderEvent s "MKT" 100 (if String.eqb d "LONG" then "BUY" else "SELL")]
     | _ => []
     end).

Definition demo_execute_order (e : Event) : Backtest.Method Mac.World :=
  fun r =>
    (Val tt, r,
     match e with
     | OrderEvent s _ q d => [FillEvent 0 s "ARCA" q d 0]
     | _ => []
     end).

Definition demo_update_fill (e : Event) : Backtest.Method Mac.World :=
  fun r => (Val tt, r, []).

(** The run of the crossover strategy over the prices 2, 1, 3. *)
Definition demo_run (fuel : nat)
  : option (Res unit * Backtest.State Mac.World) :=
  Backtest._run_backtest demo_continue demo_update_bars
    demo_calculate_signals demo_update_timeindex demo_update_signal
    demo_execute_order demo_update_fill fuel
    (Backtest.init (mac_world 1 10 w_dip)).

End Examples.

(** Vocabulary and inputs of the further properties. *)
Module DataMore.

Import Data DataSpec.

(** The rows [iterrows()] yields for [s]: one per label of the shared
    index. *)
Definition rows_of (idx : list Z) (frame : string -> Z -> Row) (s : string)
  : list Bar :=
  (fun t => (t, frame s t)) <$> idx.

(** A bar source as [__init__] leaves it, with whatever is in the queue
    and on the console. *)
Definition fresh (ev : list Event) (out : list string) (symbols : list string)
    (idx : list Z) (frame : string -> Z -> Row) : World :=
  mkWorld ev out (init symbols idx frame).

(** A bound on the calls of [update_bars()] that can still be made
    while [continue_backtest] holds: the rows the first listed stream has
    left, and one more for the call that finds it empty. *)
Definition data_left (h : Handler) : nat :=
  (if continue_backtest h then 1 else 0)
  + match symbol_list h with
    | s :: _ => from_option length 0%nat (symbol_data h !! s)
    | [] => 0
    end.

End DataMore.

Module MacMore.

Import Mac.

(** [t] is a reading the clock gives from now on. *)
Definition reading (w : World) (t : Z) : Prop :=
  t = utcnow w ∨ ∃ i, t = clock w i.

(** The event is a LONG or an EXIT signal of the crossover strategy for a
    symbol of [l], stamped with a reading of the clock of [w]. *)
Definition crossover_signal (l : list string) (w : World) (e : Event) : Prop :=
  ∃ k t dir,
    e = SignalEvent 1 k t dir 1 ∧ k ∈ l ∧ reading w t
    ∧ (dir = "LONG" ∨ dir = "EXIT").

(** The event is an EXIT signal of the crossover strategy for a symbol
    of [l], stamped with a reading of the clock of [w]. *)
Definition exit_signal (l : list string) (w : World) (e : Event) : Prop :=
  ∃ k t, e = SignalEvent 1 k t "EXIT" 1 ∧ k ∈ l ∧ reading w t.

(** A freshly constructed strategy on the bar source [d], under any
    clock. *)
Definition fresh (short long : Z) (d : Data.World) (now : Z)
    (later : nat -> Z) : World :=
  mkWorld (init (Data.bars d) short long) d now later.

End MacMore.

Module BacktestMore.

Import Backtest.

(** The number of events of type [tag] popped from the queue in a
    trace. *)
Definition handled (tag : string) (t : list Obs) : nat :=
  length (List.filter (fun e => String.eqb (event_type e) tag) (gets_of t)).

(** The three counters agree with the trace. *)
Definition counted {R} (b : State R) : Prop :=
  signals b = handled "SIGNAL" (trace b)
  ∧ orders b = handled "ORDER" (trace b)
  ∧ fills b = handled "FILL" (trace b).

End BacktestMore.

(** ** ib_execution.py: the submission of orders *)

Module IbMore.

Import IbExecution.

Definition create_contract (symbol sec_type exch prim_exch curr : string)
  : Contract :=
  mkContract symbol sec_type exch prim_exch curr.

Definition create_order (order_type : string) (quantity : Z) (action : string)
  : Order :=
  mkOrder order_type quantity action.

(** The handler together with its broker connection, of which the
    handler uses [placeOrder] alone: the orders submitted so far. *)
Record Session : Type := mkSession {
  world : World;
  placed : list (Z * Contract * Order) }.

Definition placeOrder (id : Z) (c : Contract) (o : Order) : M Session unit :=
  modify (fun s => mkSession (world s) (placed s ++ [(id, c, o)])).

(** [self.order_id += 1] *)
Definition increment_order_id : M Session unit :=
  modify (fun s =>
    let w := world s in
    let h := self w in
    mkSession
      (mkWorld (mkHandler (order_routing h) (currency h) (fill_dict h)
                          (order_id h + 1))
               (events w) (stdout w) (utcnow w))
      (placed s)).

Section LateBinding.

(** [self.<name>] for the two constructors, resolved when the call is
    made. *)
Variable contract_attr :
  string -> option (string -> string -> string -> string -> string -> Contract).
Variable order_attr : string -> option (string -> Z -> string -> Order).

Definition execute_order (event : Event) : M Session unit :=
  match event with
  | OrderEvent asset order_type quantity direction =>
      h <- gets (fun s => self (world s));;
      match contract_attr "_create_contract" with
      | None => raise AttributeError
      | Some mk_contract =>
          let ib_contract :=
            mk_contract asset "STK" (order_routing h) (order_routing h)
                        (currency h) in
          match order_attr "_create_order" with
          | None => raise AttributeError
          | Some mk_order =>
              let ib_order := mk_order order_type quantity direction in
              placeOrder (order_id h) ib_contract ib_order;;
              increment_order_id
          end
      end
  | _ => ret tt
  end.

End LateBinding.

(** The constructors an instance has, by name. *)
Definition class_contract_attr (name : string)
  : option (string -> string -> string -> string -> string -> Contract) :=
  if String.eqb name "create_contract" then Some create_contract else None.

Definition class_order_attr (name : string)
  : option (string -> Z -> string -> Order) :=
  if String.eqb name "create_order" then Some create_order else None.

End IbMore.

(** Further inputs. *)
Module MoreExamples.

Import Data DataSpec Examples.

(** The crossover strategy with windows 1 and 10 on the prices 2, 1, 3,
    when the second MarketEvent is handled. *)
Definition mac_second_bar : Mac.World :=
  let w1 := MacSpec.timestep (mac_world 1 10 w_dip) in
  Mac.set_dw (snd (update_bars (Mac.dw w1))) w1.

(** The crossover strategy before the first call of [update_bars]. *)
Definition mac_no_bar : Mac.World := mac_world 1 10 w_dip.

(** Two symbols with the prices 2, 1, 3, and a strategy constructed on
    them after two bars, under a clock that reads 5 and a unit more at
    each later reading. *)
Definition w_two_symbols : World :=
  update_bars_n 2 (mkWorld [] [] (init ["AAPL"; "MSFT"] [1; 2; 3]%Z dip)).

Definition mac_two_symbols : Mac.World :=
  Mac.mkWorld (Mac.init (bars w_two_symbols) 1 10) w_two_symbols 5
              (fun i => (6 + Z.of_nat i)%Z).

(** The pairs strategy on a bar source that tracks another symbol. *)
Definition pairs_elsewhere : IntradayMr.World :=
  pairs_fresh (snd (update_bars w_two)).

(** A pair whose [y] leg stays at 17 for sixteen bars and then closes at
    34, after seventeen bars, and a strategy on it that is long. *)
Definition rally_frame (s : string) (t : Z) : Row :=
  row (if String.eqb s "AREX" then (if (t <=? 16)%Z then 17 else 34) else 1)%Q.

Definition w_rally : World :=
  update_bars_n 17
    (mkWorld [] [] (init ["AREX"; "WLL"] pairs_index rally_frame)).

Definition pairs_long_in_rally : IntradayMr.World :=
  IntradayMr.set_long_market true (pairs_fresh w_rally).

Definition y_rally : list Q := replicate 16 17%Q ++ [34%Q].

(** The pair of [pairs_frame] one bar late: the first full window ends
    on the close that equals the window's mean. *)
Definition calm_frame (s : string) (t : Z) : Row := pairs_frame s (t + 1).

Definition pairs_calm : IntradayMr.World :=
  pairs_fresh
    (update_bars_n 17
       (mkWorld [] [] (init ["AREX"; "WLL"] pairs_index calm_frame))).

(** The orchestrator with the pairs strategy as [Backtest] constructs
    it ([strategy_cls(self.data_handler, self.events)]: the default window
    of 100 and the default thresholds), on the bar source [w_two], which
    tracks AAPL alone.  The queue the roles were given is read as their
    outbox.  [portfolio.py] and [execution.py] are not among the sources:
    the stand-ins do nothing, and the run below does not reach them. *)
Definition pairs_clear_outbox (r : IntradayMr.World) : IntradayMr.World :=
  IntradayMr.set_dw
    (mkWorld [] (stdout (IntradayMr.dw r)) (bars (IntradayMr.dw r))) r.

Definition pairs_outbox (m : M IntradayMr.World unit)
  : Backtest.Method IntradayMr.World :=
  fun r =>
    let '(res, r') := m (pairs_clear_outbox r) in
    (res, pairs_clear_outbox r', events (IntradayMr.dw r')).

Definition pairs_continue (r : IntradayMr.World) : bool :=
  continue_backtest (bars (IntradayMr.dw r)).

Definition pairs_update_bars : Backtest.Method IntradayMr.World :=
  pairs_outbox (IntradayMr.data update_bars).

Definition pairs_calculate_signals (e : Event)
  : Backtest.Method IntradayMr.World :=
  pairs_outbox (IntradayMr.calculate_signals Numerics.ols_fit Numerics.zscore e).

Definition idle (e : Event) : Backtest.Method IntradayMr.World :=
  fun r => (Val tt, r, []).

Definition pairs_on_aapl : IntradayMr.World :=
  IntradayMr.mkWorld (IntradayMr.init 0 100 (1 # 2) 3) w_two.

Definition pairs_run (fuel : nat)
  : option (Res unit * Backtest.State IntradayMr.World) :=
  Backtest._run_backtest pairs_continue pairs_update_bars
    pairs_calculate_signals idle idle idle idle fuel
    (Backtest.init pairs_on_aapl).

(** The role states of the run of [demo_run]: the bar source is in a
    state of a run, over distinct symbols, at least one; and what is left
    of its data. *)
Definition demo_inv (r : Mac.World) : Prop :=
  reachable (Mac.dw r)
  ∧ NoDup (symbol_list (bars (Mac.dw r)))
  ∧ symbol_list (bars (Mac.dw r)) ≠ [].

Definition demo_left (r : Mac.World) : nat :=
  DataMore.data_left (bars (Mac.dw r)).

End MoreExamples.

(** * Properties *)

(** Settle a closed decidable statement by evaluation. *)
Ltac decide_by_compute :=
  match goal with
  | |- ?P => apply (@bool_decide_unpack P _); vm_compute; reflexivity
  end.

(** The cases of the pairs strategy's rule chain: the three threshold
    tests and the two flags. *)
Ltac pairs_cases w :=
  destruct (IntradayMr.Qleb _ (- IntradayMr.zscore_high (IntradayMr.self w))),
           (IntradayMr.Qleb (Qabs _) (IntradayMr.zscore_low (IntradayMr.self w))),
           (IntradayMr.Qleb (IntradayMr.zscore_high (IntradayMr.self w)) _),
           (IntradayMr.long_market (IntradayMr.self w)) eqn:Hlong,
           (IntradayMr.short_market (IntradayMr.self w)) eqn:Hshort.

(** Rule conditions that contradict the case at hand. *)
Ltac absurd_rule :=
  repeat match goal with
         | H : _ ∧ _ |- _ => destruct H
         | H : ¬ (_ ∧ _) |- _ => exfalso; apply H; split; reflexivity
         end; try discriminate.

(** ** The bar source *)

Section DataFacts.

Import Data DataSpec.

(** The dictionaries [__init__] builds hold exactly the listed symbols. *)
Lemma foldl_insert_lookup {V} (f : string -> V) (l : list string)
    (d : gmap string V) (k : string) :
  foldl (fun d s => <[s := f s]> d) d l !! k
  = if decide (k ∈ l) then Some (f k) else d !! k.
Proof.
  revert d. induction l as [|a l IH]; intros d; simpl.
  - destruct (decide (k ∈ [])) as [H|H]; [by apply elem_of_nil in H | done].
  - rewrite IH. destruct (decide (k ∈ l)) as [Hl|Hl].
    + rewrite decide_True; [done | by apply elem_of_cons; right].
    + destruct (decide (k = a)) as [->|Hne].
      * rewrite lookup_insert_eq.
        rewrite decide_True; [done | by apply elem_of_cons; left].
      * rewrite lookup_insert_ne by congruence.
        rewrite decide_False; [done |].
        intros [?|?]%elem_of_cons; congruence.
Qed.

Lemma init_tracks symbols idx frame : tracks (init symbols idx frame).
Proof.
  intros s. unfold init; simpl. rewrite (foldl_insert_lookup (fun _ => [])).
  destruct (decide (s ∈ symbols)) as [H|H].
  - split; [eauto | done].
  - rewrite lookup_empty. split; [done | by intros [? ?]].
Qed.

Lemma init_synced symbols idx frame : synced (init symbols idx frame).
Proof.
  exists (length idx). intros s Hs. unfold init in *; simpl in *.
  rewrite (foldl_insert_lookup (fun s => (fun t => (t, frame s t)) <$> idx)).
  rewrite decide_True by done.
  eexists; split; [done | by rewrite length_fmap].
Qed.

Lemma synced_streams h : synced h → streams h.
Proof. intros [n Hn] s Hs. destruct (Hn s Hs) as (rows & -> & _). eauto. Qed.

Lemma loop_body_advance s w :
  is_Some (symbol_data (bars w) !! s) →
  is_Some (latest_symbol_data (bars w) !! s) →
  loop_body s w = (Val tt, set_bars (advance s (bars w)) w).
Proof.
  intros [rows Hrows] [hist Hhist].
  unfold loop_body, try_except_else, next_get_new_bar, advance.
  rewrite Hrows. destruct rows as [|b rest].
  - reflexivity.
  - unfold append_latest. simpl. rewrite Hhist. destruct w; reflexivity.
Qed.

Lemma advance_symbol_list s h : symbol_list (advance s h) = symbol_list h.
Proof.
  unfold advance.
  destruct (symbol_data h !! s) as [[|b rest]|]; try done.
  destruct (latest_symbol_data h !! s); done.
Qed.

Lemma advance_latest_is_Some s h k :
  is_Some (latest_symbol_data (advance s h) !! k)
  ↔ is_Some (latest_symbol_data h !! k).
Proof.
  unfold advance.
  destruct (symbol_data h !! s) as [[|b rest]|]; try done.
  destruct (latest_symbol_data h !! s) as [hist|] eqn:E; try done.
  simpl. destruct (decide (s = k)) as [->|Hne].
  - rewrite lookup_insert_eq, E. split; eauto.
  - by rewrite lookup_insert_ne.
Qed.

Lemma advance_data_is_Some s h k :
  is_Some (symbol_data (advance s h) !! k) ↔ is_Some (symbol_data h !! k).
Proof.
  unfold advance.
  destruct (symbol_data h !! s) as [[|b rest]|] eqn:E; try done.
  destruct (latest_symbol_data h !! s) as [hist|]; try done.
  simpl. destruct (decide (s = k)) as [->|Hne].
  - rewrite lookup_insert_eq, E. split; eauto.
  - by rewrite lookup_insert_ne.
Qed.

(** The whole loop, as a fold over the symbol list. *)
Lemma for_each_advance (l : list string) (w : World) :
  (∀ s, s ∈ l → is_Some (symbol_data (bars w) !! s)
                ∧ is_Some (latest_symbol_data (bars w) !! s)) →
  for_each l loop_body w
  = (Val tt, set_bars (foldl (fun h s => advance s h) (bars w) l) w).
Proof.
  revert w. induction l as [|s l IH]; intros w Hp; simpl.
  - destruct w; reflexivity.
  - unfold bind. destruct (Hp s) as [Hd Hl]; [by left |].
    rewrite (loop_body_advance s w Hd Hl).
    rewrite IH.
    + destruct w; reflexivity.
    + intros k Hk. simpl.
      rewrite advance_data_is_Some, advance_latest_is_Some.
      apply Hp. by right.
Qed.

Lemma update_bars_eq (w : World) :
  (∀ s, s ∈ symbol_list (bars w) →
        is_Some (symbol_data (bars w) !! s)
        ∧ is_Some (latest_symbol_data (bars w) !! s)) →
  update_bars w
  = (Val tt,
     mkWorld (events w ++ [MarketEvent]) (stdout w)
             (foldl (fun h s => advance s h) (bars w) (symbol_list (bars w)))).
Proof.
  intros Hp. unfold update_bars, bind, gets.
  change (fun s => try_except_else (next_get_new_bar s) StopIteration _ _)
    with loop_body.
  rewrite (for_each_advance _ w Hp). reflexivity.
Qed.

Lemma foldl_advance_symbol_list l h :
  symbol_list (foldl (fun h s => advance s h) h l) = symbol_list h.
Proof.
  revert h. induction l as [|a l IH]; intros h; simpl; [done |].
  by rewrite IH, advance_symbol_list.
Qed.

Lemma foldl_advance_latest_is_Some l h k :
  is_Some (latest_symbol_data (foldl (fun h s => advance s h) h l) !! k)
  ↔ is_Some (latest_symbol_data h !! k).
Proof.
  revert h. induction l as [|a l IH]; intros h; simpl; [done |].
  by rewrite IH, advance_latest_is_Some.
Qed.

Lemma foldl_advance_data_is_Some l h k :
  is_Some (symbol_data (foldl (fun h s => advance s h) h l) !! k)
  ↔ is_Some (symbol_data h !! k).
Proof.
  revert h. induction l as [|a l IH]; intros h; simpl; [done |].
  by rewrite IH, advance_data_is_Some.
Qed.

Lemma reachable_inv w : reachable w → tracks (bars w) ∧ streams (bars w).
Proof.
  induction 1 as [ev out symbols idx frame | w Hw [Ht Hs] | w ev out Hw IH].
  - split; [apply init_tracks | apply synced_streams, init_synced].
  - rewrite update_bars_eq.
    2:{ intros s Hin. split; [by apply Hs | by apply Ht]. }
    simpl. split.
    + intros s. rewrite foldl_advance_symbol_list, foldl_advance_latest_is_Some.
      apply Ht.
    + intros s. rewrite foldl_advance_symbol_list, foldl_advance_data_is_Some.
      apply Hs.
  - exact IH.
Qed.

Lemma untracked_None w s :
  reachable w → s ∉ symbol_list (bars w) →
  latest_symbol_data (bars w) !! s = None.
Proof.
  intros [Ht _]%reachable_inv Hs.
  destruct (latest_symbol_data (bars w) !! s) eqn:E; [|done].
  exfalso. apply Hs, Ht. eauto.
Qed.

Lemma tracked_Some w s :
  reachable w → s ∈ symbol_list (bars w) →
  ∃ hist, latest_symbol_data (bars w) !! s = Some hist.
Proof. intros [Ht _]%reachable_inv Hs. by apply Ht. Qed.

(** *** Slices and indexes *)

Lemma slice_from_last {A} (N : Z) (l : list A) :
  (1 ≤ N)%Z →
  slice_from (- N) l = drop (length l - Nat.min (Z.to_nat N) (length l)) l.
Proof.
  intros HN. unfold slice_from.
  destruct (Z.ltb_spec (- N) 0) as [_|?]; [|lia].
  f_equal. lia.
Qed.

Lemma getattr_column field :
  field ∈ columns → ∃ f : Row → Q, ∀ r, getattr r field = Val (f r).
Proof.
  unfold columns. intros H.
  repeat (apply elem_of_cons in H as [->|H]; [eexists; intros r; reflexivity |]).
  by apply elem_of_nil in H.
Qed.

Lemma getattr_all_column field (f : Row → Q) l :
  (∀ r, getattr r field = Val (f r)) →
  getattr_all field l = Val ((fun b => f (snd b)) <$> l).
Proof.
  intros Hf. induction l as [|b l IH]; simpl; [done |].
  by rewrite Hf, IH.
Qed.

Lemma get_latest_bars_tracked s N w hist :
  latest_symbol_data (bars w) !! s = Some hist →
  get_latest_bars s N w
  = (Val (match hist with [] => [] | _ => slice_from (- N) hist end), w).
Proof.
  intros H. unfold get_latest_bars, bind, gets. cbv beta. rewrite H.
  by destruct hist.
Qed.

(** C3: for a tracked symbol, a column name and [N >= 1], after any
    sequence of [update_bars()] calls, [get_latest_bars_values] returns
    without raising exactly [min(N, available)] values: the named column
    of the last [min(N, available)] observed bars, oldest first, none
    skipped (an empty array while nothing has been observed). *)
Theorem get_latest_bars_values_window w s field N :
  reachable w → s ∈ symbol_list (bars w) → field ∈ columns → (1 ≤ N)%Z →
  ∃ hist vals,
    latest_symbol_data (bars w) !! s = Some hist
    ∧ get_latest_bars_values s field N w = (Val vals, w)
    ∧ length vals = Nat.min (Z.to_nat N) (length hist)
    ∧ Forall2 (fun v b => getattr (snd b) field = Val v)
              vals (drop (length hist - length vals) hist).
Proof.
  intros Hw Hs Hf HN.
  destruct (tracked_Some w s Hw Hs) as [hist Hh].
  destruct (getattr_column field Hf) as [f Hcol].
  set (k := Nat.min (Z.to_nat N) (length hist)).
  exists hist, ((fun b => f (snd b)) <$> drop (length hist - k) hist).
  assert (Hlen : length ((fun b : Bar => f (snd b)) <$> drop (length hist - k) hist) = k).
  { rewrite length_fmap, length_drop. lia. }
  split; [done |]. split; [| split; [exact Hlen |]].
  - unfold get_latest_bars_values, try_except_else.
    rewrite (get_latest_bars_tracked s N w hist Hh).
    replace (match hist with [] => [] | _ => slice_from (- N) hist end)
      with (drop (length hist - k) hist).
    + by rewrite (getattr_all_column field f).
    + destruct hist; [done |]. by rewrite slice_from_last.
  - replace (length hist - length ((fun b : Bar => f (snd b)) <$> drop (length hist - k) hist))%nat
      with (length hist - k)%nat by (rewrite Hlen; reflexivity).
    apply Forall2_fmap_l, Forall_Forall2_diag, Forall_forall.
    intros b _. apply Hcol.
Qed.

(** For a symbol that is not tracked, each of the five lookups raises
    [KeyError], a [LookupError], to its caller; the bar source, and with
    it the exhaustion flag, and the queue are left as they were. *)
Lemma lookups_fail_untracked w s field N :
  reachable w → s ∉ symbol_list (bars w) →
  is_LookupError KeyError = true
  ∧ fails_untracked (get_latest_bar s) w
  ∧ fails_untracked (get_latest_bars s N) w
  ∧ fails_untracked (get_latest_bar_value s field) w
  ∧ fails_untracked (get_latest_bars_values s field N) w
  ∧ fails_untracked (get_latest_bar_datetime s) w.
Proof.
  intros Hw Hs. pose proof (untracked_None w s Hw Hs) as Hn.
  unfold fails_untracked.
  repeat split.
  - unfold get_latest_bar, try_except_else. cbv beta. rewrite Hn. simpl.
    eexists; split; [reflexivity | done].
  - unfold get_latest_bars, bind, gets. cbv beta. rewrite Hn. simpl.
    eexists; split; [reflexivity | done].
  - unfold get_latest_bar_value, bind, gets. cbv beta. rewrite Hn. simpl.
    eexists; split; [reflexivity | done].
  - unfold get_latest_bars_values, try_except_else, get_latest_bars, bind, gets.
    cbv beta. rewrite Hn. simpl. eexists; split; [reflexivity | done].
  - unfold get_latest_bar_datetime, bind, gets. cbv beta. rewrite Hn. simpl.
    eexists; split; [reflexivity | done].
Qed.

(** C10: while a tracked symbol's observed history is empty,
    [get_latest_bar_value] returns [None] without raising, whereas
    [get_latest_bar] raises [IndexError] in the same state. *)
Theorem empty_history_value_none w s field :
  latest_symbol_data (bars w) !! s = Some [] →
  get_latest_bar_value s field w = (Val None, w)
  ∧ get_latest_bar s w = (Raise IndexError, w).
Proof.
  intros H. split.
  - unfold get_latest_bar_value, bind, gets. cbv beta. by rewrite H.
  - unfold get_latest_bar, try_except_else. cbv beta. by rewrite H.
Qed.

(** *** One synchronized step *)

Lemma advance_data_ne a h k :
  a ≠ k → symbol_data (advance a h) !! k = symbol_data h !! k.
Proof.
  intros Hne. unfold advance.
  destruct (symbol_data h !! a) as [[|b rest]|]; try done.
  destruct (latest_symbol_data h !! a); try done.
  simpl. by rewrite lookup_insert_ne.
Qed.

Lemma advance_latest_ne a h k :
  a ≠ k → latest_symbol_data (advance a h) !! k = latest_symbol_data h !! k.
Proof.
  intros Hne. unfold advance.
  destruct (symbol_data h !! a) as [[|b rest]|]; try done.
  destruct (latest_symbol_data h !! a); try done.
  simpl. by rewrite lookup_insert_ne.
Qed.

Lemma advance_continue a h :
  continue_backtest (advance a h)
  = continue_backtest h && negb (exhausted h a).
Proof.
  unfold advance, exhausted.
  destruct (symbol_data h !! a) as [[|b rest]|]; simpl.
  - by rewrite andb_false_r.
  - destruct (latest_symbol_data h !! a); simpl; by rewrite andb_true_r.
  - by rewrite andb_true_r.
Qed.

(** Symbols outside the list are not touched by the loop. *)
Lemma foldl_advance_notin l h k :
  k ∉ l →
  symbol_data (foldl (fun h s => advance s h) h l) !! k = symbol_data h !! k
  ∧ latest_symbol_data (foldl (fun h s => advance s h) h l) !! k
    = latest_symbol_data h !! k.
Proof.
  revert h. induction l as [|a l IH]; intros h Hk; simpl; [done |].
  apply not_elem_of_cons in Hk as [Hne Hk].
  destruct (IH (advance a h) Hk) as [-> ->].
  by rewrite advance_data_ne, advance_latest_ne.
Qed.

Lemma advance_self k h :
  symbol_data (advance k h) !! k
  = match symbol_data h !! k, latest_symbol_data h !! k with
    | Some (b :: rest), Some _ => Some rest
    | d, _ => d
    end
  ∧ latest_symbol_data (advance k h) !! k
    = match symbol_data h !! k, latest_symbol_data h !! k with
      | Some (b :: rest), Some hist => Some (hist ++ [b])
      | _, o => o
      end.
Proof.
  unfold advance.
  destruct (symbol_data h !! k) as [[|b rest]|] eqn:Ed; simpl; [by rewrite Ed | | by rewrite Ed].
  destruct (latest_symbol_data h !! k) as [hist|] eqn:El; simpl.
  - by rewrite !lookup_insert_eq.
  - by rewrite Ed.
Qed.

(** With distinct symbols, the loop treats each listed symbol as if it
    were alone. *)
Lemma foldl_advance_in l h k :
  NoDup l → k ∈ l →
  symbol_data (foldl (fun h s => advance s h) h l) !! k
  = symbol_data (advance k h) !! k
  ∧ latest_symbol_data (foldl (fun h s => advance s h) h l) !! k
    = latest_symbol_data (advance k h) !! k.
Proof.
  revert h. induction l as [|a l IH]; intros h Hnd Hk; simpl.
  - by apply elem_of_nil in Hk.
  - apply NoDup_cons in Hnd as [Ha Hnd].
    apply elem_of_cons in Hk as [->|Hk].
    + by apply foldl_advance_notin.
    + assert (a ≠ k) by (intros Heq; apply Ha; by rewrite Heq).
      destruct (IH (advance a h) Hnd Hk) as [-> ->].
      destruct (advance_self k (advance a h)) as [-> ->].
      destruct (advance_self k h) as [-> ->].
      by rewrite advance_data_ne, advance_latest_ne.
Qed.

Lemma exhausted_advance_ne a h l :
  a ∉ l →
  forallb (fun s => negb (exhausted (advance a h) s)) l
  = forallb (fun s => negb (exhausted h s)) l.
Proof.
  induction l as [|k l IH]; intros Ha; simpl; [done |].
  apply not_elem_of_cons in Ha as [Hne Ha].
  rewrite IH by done. unfold exhausted.
  by rewrite advance_data_ne.
Qed.

Lemma foldl_advance_continue l h :
  NoDup l →
  continue_backtest (foldl (fun h s => advance s h) h l)
  = continue_backtest h && forallb (fun s => negb (exhausted h s)) l.
Proof.
  revert h. induction l as [|a l IH]; intros h Hnd; simpl.
  - by rewrite andb_true_r.
  - apply NoDup_cons in Hnd as [Ha Hnd].
    rewrite IH, advance_continue, <- andb_assoc by done. do 2 f_equal.
    by apply exhausted_advance_ne.
Qed.

Lemma update_bars_reachable w :
  reachable w →
  update_bars w
  = (Val tt,
     mkWorld (events w ++ [MarketEvent]) (stdout w)
             (foldl (fun h s => advance s h) (bars w) (symbol_list (bars w)))).
Proof.
  intros [Ht Hs]%reachable_inv. apply update_bars_eq.
  intros s Hin. split; [by apply Hs | by apply Ht].
Qed.

Lemma reachable_synced w :
  reachable w → NoDup (symbol_list (bars w)) → synced (bars w).
Proof.
  induction 1 as [ev out symbols idx frame | w Hw IH | w ev out Hw IH];
    intros Hnd.
  - apply init_synced.
  - rewrite update_bars_reachable in * by done. simpl in *.
    rewrite foldl_advance_symbol_list in *.
    destruct (IH Hnd) as [n Hn].
    exists (Nat.pred n). intros s Hs.
    rewrite foldl_advance_symbol_list in Hs.
    destruct (foldl_advance_in _ (bars w) s Hnd Hs) as [-> _].
    destruct (advance_self s (bars w)) as [-> _].
    destruct (Hn s Hs) as (rows & -> & Hlen).
    destruct (tracked_Some w s Hw Hs) as [hist ->].
    destruct rows as [|b rest]; simpl in *.
    + exists []. split; [done | simpl; lia].
    + exists rest. split; [done | lia].
  - by apply IH.
Qed.

(** The exhaustion flag is never set back, whatever the state. *)
Lemma loop_body_keeps_false s w :
  continue_backtest (bars w) = false →
  continue_backtest (bars (snd (loop_body s w))) = false.
Proof.
  intros H. unfold loop_body, try_except_else, next_get_new_bar.
  destruct (symbol_data (bars w) !! s) as [[|b rest]|]; simpl; try done.
  unfold append_latest. simpl.
  destruct (latest_symbol_data (bars w) !! s); simpl; done.
Qed.

Lemma for_each_keeps_false l w :
  continue_backtest (bars w) = false →
  continue_backtest (bars (snd (for_each l loop_body w))) = false.
Proof.
  revert w. induction l as [|a l IH]; intros w H; simpl; [done |].
  unfold bind. pose proof (loop_body_keeps_false a w H) as Ha.
  destruct (loop_body a w) as [[u|e] w1]; simpl in *; [by apply IH | done].
Qed.

Lemma update_bars_keeps_false w :
  continue_backtest (bars w) = false →
  continue_backtest (bars (snd (update_bars w))) = false.
Proof.
  intros H. unfold update_bars, bind, gets. cbv beta.
  change (fun s => try_except_else (next_get_new_bar s) StopIteration _ _)
    with loop_body.
  pose proof (for_each_keeps_false (symbol_list (bars w)) w H) as Hl.
  destruct (for_each _ loop_body w) as [[u|e] w1]; simpl in *; done.
Qed.

Lemma update_bars_n_keeps_false n w :
  continue_backtest (bars w) = false →
  continue_backtest (bars (update_bars_n n w)) = false.
Proof.
  intros H. induction n as [|n IH]; simpl; [done |].
  by apply update_bars_keeps_false.
Qed.

(** C1, as the code has it: a call of [update_bars()] on a bar source
    with distinct symbols returns and always enqueues exactly one
    MarketEvent.  If no tracked series is exhausted, every tracked
    symbol's history grows by exactly the next bar of its series and the
    flag is unchanged.  If some tracked series is exhausted, the flag
    [continue_backtest] becomes false and no history changes (the series
    all end together, so there is no partial step).  Once false the
    flag stays false through any number of further calls. *)
Theorem update_bars_step w :
  reachable w → NoDup (symbol_list (bars w)) →
  ∃ w',
    update_bars w = (Val tt, w')
    ∧ events w' = events w ++ [MarketEvent]
    ∧ ((∀ s, s ∈ symbol_list (bars w) → exhausted (bars w) s = false) →
       continue_backtest (bars w') = continue_backtest (bars w)
       ∧ ∀ s, s ∈ symbol_list (bars w) →
           ∃ b rest hist,
             symbol_data (bars w) !! s = Some (b :: rest)
             ∧ latest_symbol_data (bars w) !! s = Some hist
             ∧ latest_symbol_data (bars w') !! s = Some (hist ++ [b]))
    ∧ ((∃ s, s ∈ symbol_list (bars w) ∧ exhausted (bars w) s = true) →
       continue_backtest (bars w') = false
       ∧ latest_symbol_data (bars w') = latest_symbol_data (bars w))
    ∧ (continue_backtest (bars w') = false →
       ∀ n, continue_backtest (bars (update_bars_n n w')) = false).
Proof.
  intros Hw Hnd. eexists. split; [by apply update_bars_reachable |].
  simpl. split; [done |].
  pose proof (proj2 (reachable_inv w Hw)) as Hst.
  repeat split.
  - rewrite foldl_advance_continue by done.
    replace (forallb _ _) with true; [by rewrite andb_true_r |].
    symmetry. apply forallb_forall. intros s Hs%list_elem_of_In.
    by rewrite H.
  - intros s Hs.
    destruct (foldl_advance_in _ (bars w) s Hnd Hs) as [_ ->].
    destruct (advance_self s (bars w)) as [_ ->].
    destruct (tracked_Some w s Hw Hs) as [hist Hh].
    destruct (Hst s Hs) as [rows Hr].
    specialize (H s Hs). unfold exhausted in H. rewrite Hr in H.
    destruct rows as [|b rest]; [done |].
    exists b, rest, hist. by rewrite Hr, Hh.
  - destruct H as (s & Hs & Hex).
    rewrite foldl_advance_continue by done.
    replace (forallb _ _) with false; [by rewrite andb_false_r |].
    symmetry. apply not_true_is_false. intros Hall.
    rewrite forallb_forall in Hall.
    specialize (Hall s (proj1 (list_elem_of_In _ _) Hs)).
    by rewrite Hex in Hall.
  - destruct H as (s0 & Hs0 & Hex).
    destruct (reachable_synced w Hw Hnd) as [n Hn].
    assert (n = 0%nat) as ->.
    { destruct (Hn s0 Hs0) as (rows & Hr & <-).
      unfold exhausted in Hex. rewrite Hr in Hex. by destruct rows. }
    apply map_eq. intros k.
    destruct (decide (k ∈ symbol_list (bars w))) as [Hk|Hk].
    + destruct (foldl_advance_in _ (bars w) k Hnd Hk) as [_ ->].
      destruct (advance_self k (bars w)) as [_ ->].
      destruct (Hn k Hk) as (rows & -> & Hlen).
      by destruct rows.
    + by destruct (foldl_advance_notin _ (bars w) k Hk) as [_ ->].
  - intros Hf n. by apply update_bars_n_keeps_false.
Qed.

End DataFacts.

Section DataExamples.

Import Data DataSpec Examples.

Lemma w_two_reachable : reachable w_two.
Proof. apply reach_init. Qed.

Lemma w_end_reachable : reachable w_end.
Proof. do 2 apply reach_update. apply reach_init. Qed.

Lemma update_bars_step_witness :
  ∃ w',
    update_bars w_two = (Val tt, w')
    ∧ events w' = events w_two ++ [MarketEvent]
    ∧ ((∀ s, s ∈ symbol_list (bars w_two) → exhausted (bars w_two) s = false) →
       continue_backtest (bars w') = continue_backtest (bars w_two)
       ∧ ∀ s, s ∈ symbol_list (bars w_two) →
           ∃ b rest hist,
             symbol_data (bars w_two) !! s = Some (b :: rest)
             ∧ latest_symbol_data (bars w_two) !! s = Some hist
             ∧ latest_symbol_data (bars w') !! s = Some (hist ++ [b]))
    ∧ ((∃ s, s ∈ symbol_list (bars w_two) ∧ exhausted (bars w_two) s = true) →
       continue_backtest (bars w') = false
       ∧ latest_symbol_data (bars w') = latest_symbol_data (bars w_two))
    ∧ (continue_backtest (bars w') = false →
       ∀ n, continue_backtest (bars (update_bars_n n w')) = false).
Proof.
  apply (update_bars_step w_two).
  - apply reach_init.
  - decide_by_compute.
Defined.

(** C1 as stated fails: at the end of the data the series of the only
    tracked symbol is exhausted, and the call still enqueues a
    MarketEvent (and sets the flag). *)
Lemma update_bars_emits_when_exhausted :
  reachable w_end
  ∧ "AAPL" ∈ symbol_list (bars w_end)
  ∧ exhausted (bars w_end) "AAPL" = true
  ∧ events (snd (update_bars w_end)) = events w_end ++ [MarketEvent]
  ∧ events (snd (update_bars w_end)) ≠ events w_end
  ∧ continue_backtest (bars (snd (update_bars w_end))) = false.
Proof.
  split; [apply w_end_reachable |].
  split; [decide_by_compute |].
  split; [vm_compute; reflexivity |].
  split; [vm_compute; reflexivity |].
  split; [vm_compute; discriminate |].
  vm_compute; reflexivity.
Qed.

Lemma get_latest_bars_values_window_witness :
  ∃ hist vals,
    latest_symbol_data (bars w_end) !! "AAPL" = Some hist
    ∧ get_latest_bars_values "AAPL" "adj_close" 5 w_end = (Val vals, w_end)
    ∧ length vals = Nat.min (Z.to_nat 5) (length hist)
    ∧ Forall2 (fun v b => getattr (snd b) "adj_close" = Val v)
              vals (drop (length hist - length vals) hist).
Proof.
  apply (get_latest_bars_values_window w_end "AAPL" "adj_close" 5).
  - do 2 apply reach_update. apply reach_init.
  - decide_by_compute.
  - decide_by_compute.
  - lia.
Defined.

Example get_latest_bars_values_w_end :
  fst (get_latest_bars_values "AAPL" "adj_close" 5 w_end) = Val [1%Q; 2%Q]
  ∧ fst (get_latest_bars_values "AAPL" "adj_close" 1 w_end) = Val [2%Q]
  ∧ fst (get_latest_bars_values "AAPL" "adj_close" 5 w_two) = Val [].
Proof. split_and!; vm_compute; reflexivity. Qed.

Lemma empty_history_value_none_witness :
  get_latest_bar_value "AAPL" "close" w_two = (Val None, w_two)
  ∧ get_latest_bar "AAPL" w_two = (Raise IndexError, w_two).
Proof.
  apply (empty_history_value_none w_two "AAPL" "close").
  vm_compute. reflexivity.
Defined.

End DataExamples.

(** ** The moving-average crossover strategy *)

Section MacFacts.

Import Data Mac MacSpec.

(** The lookups of the bar source only write to the console. *)
Lemma get_latest_bars_values_frame s f N d :
  bars (snd (get_latest_bars_values s f N d)) = bars d
  ∧ events (snd (get_latest_bars_values s f N d)) = events d.
Proof.
  unfold get_latest_bars_values, try_except_else, get_latest_bars, bind, gets.
  cbv beta.
  destruct (latest_symbol_data (bars d) !! s) as [[|b l]|]; simpl; done.
Qed.

Lemma get_latest_bar_datetime_frame s d :
  snd (get_latest_bar_datetime s d) = d.
Proof.
  unfold get_latest_bar_datetime, bind, gets. cbv beta.
  destruct (latest_symbol_data (bars d) !! s) as [l|]; simpl; try done.
  destruct (index (-1) l); done.
Qed.

Lemma gt_irrefl a : gt a a = false.
Proof.
  destruct a as [x|]; simpl; [|done].
  by rewrite (proj1 (Qeq_alt x x) (Qeq_refl x)).
Qed.

Lemma gt_asym a b : gt a b = true → gt b a = false.
Proof.
  destruct a as [x|], b as [y|]; simpl; try done.
  rewrite <- (Qcompare_antisym x y).
  destruct (x ?= y)%Q; simpl; done.
Qed.

(** Whatever the state, handling one symbol leaves the bar source and
    the windows alone and enqueues at most one event, a signal for that
    symbol. *)
Lemma calculate_signals_symbol_frame k w :
  bars (dw (snd (calculate_signals_symbol k w))) = bars (dw w)
  ∧ short_window (self (snd (calculate_signals_symbol k w)))
    = short_window (self w)
  ∧ long_window (self (snd (calculate_signals_symbol k w)))
    = long_window (self w)
  ∧ (events (dw (snd (calculate_signals_symbol k w))) = events (dw w)
     ∨ ∃ dir, events (dw (snd (calculate_signals_symbol k w)))
              = events (dw w) ++ [SignalEvent 1 k (utcnow w) dir 1]).
Proof.
  unfold calculate_signals_symbol, bind, gets, data, lift. cbv beta.
  pose proof (get_latest_bars_values_frame k "adj_close"
                (long_window (self w)) (dw w)) as [F1 F2].
  destruct (get_latest_bars_values k "adj_close" _ (dw w)) as [[a|e] d1];
    simpl in *; [|by eauto].
  pose proof (get_latest_bar_datetime_frame k d1) as F3.
  destruct (get_latest_bar_datetime k d1) as [[date|e] d2];
    simpl in *; subst d2; [|by eauto].
  unfold get_bought, emit, put_bought, modify, bind, gets, data, lift, ret.
  simpl.
  repeat case_match; simplify_eq/=; rewrite ?F1, ?F2; eauto 10.
Qed.

Lemma getattr_all_length f l vs :
  getattr_all f l = Val vs → length vs = length l.
Proof.
  revert vs. induction l as [|b l IH]; intros vs; simpl.
  - by intros [= <-].
  - destruct (getattr (snd b) f); [|done].
    destruct (getattr_all f l) as [vs'|]; [|done].
    intros [= <-]. simpl. by rewrite (IH vs').
Qed.

Lemma slice_from_length {A} (i : Z) (l : list A) :
  (length (slice_from i l) ≤ length l)%nat.
Proof. unfold slice_from. rewrite length_drop. lia. Qed.

Lemma slice_from_all {A} (n : Z) (l : list A) :
  (Z.of_nat (length l) ≤ n)%Z → slice_from (- n) l = l.
Proof.
  intros H. unfold slice_from.
  destruct (Z.ltb_spec (- n) 0) as [?|?].
  - replace (Z.to_nat _) with 0%nat by lia. done.
  - replace (Z.to_nat _) with 0%nat by lia. done.
Qed.

(** The array the strategy receives is never longer than the history,
    and asking it again for its last [N] entries gives it back. *)
Lemma get_latest_bars_values_short s f N d a d' :
  get_latest_bars_values s f N d = (Val a, d') →
  (length a ≤ available d s)%nat
  ∧ ((0 ≤ N)%Z → slice_from (- N) a = a).
Proof.
  unfold get_latest_bars_values, try_except_else, get_latest_bars, bind, gets,
    available.
  cbv beta.
  destruct (latest_symbol_data (bars d) !! s) as [[|b l]|] eqn:E; simpl.
  - intros [= <- <-]. split; [done | by intros; apply slice_from_all].
  - destruct (getattr_all f (slice_from (- N) (b :: l))) as [vs|] eqn:Ev;
      [|done].
    intros [= <- <-]. apply getattr_all_length in Ev.
    pose proof (slice_from_length (- N) (b :: l)) as Hle.
    split; [simpl in *; lia |].
    intros HN. destruct (decide (N = 0%Z)) as [->|Hne].
    + unfold slice_from. simpl.
      replace (Z.to_nat _) with 0%nat by lia. done.
    + apply slice_from_all. rewrite Ev.
      unfold slice_from. rewrite length_drop.
      destruct (Z.ltb_spec (- N) 0); lia.
  - done.
Qed.

Lemma calculate_signals_symbol_quiet s w :
  (1 ≤ short_window (self w))%Z → (0 ≤ long_window (self w))%Z →
  (Z.of_nat (available (dw w) s) ≤ short_window (self w))%Z →
  events (dw (snd (calculate_signals_symbol s w))) = events (dw w).
Proof.
  intros Hn HN Hav.
  unfold calculate_signals_symbol, bind, gets, data, lift. cbv beta.
  pose proof (get_latest_bars_values_frame s "adj_close"
                (long_window (self w)) (dw w)) as [F1 F2].
  destruct (get_latest_bars_values s "adj_close" _ (dw w)) as [[a|e] d1] eqn:E1;
    simpl in *; [|done].
  apply get_latest_bars_values_short in E1 as [Hlen Hsl].
  pose proof (get_latest_bar_datetime_frame s d1) as F3.
  destruct (get_latest_bar_datetime s d1) as [[date|e] d2];
    simpl in *; subst d2; [|done].
  rewrite (Hsl HN), slice_from_all by lia.
  unfold lt. rewrite gt_irrefl. unfold ret. simpl.
  by destruct (0 <? length a)%nat.
Qed.

Lemma signals_for_app s q e :
  signals_for s (q ++ [e])
  = signals_for s q ++ (if is_signal_for s e then [e] else []).
Proof. unfold signals_for. by rewrite List.filter_app. Qed.

Lemma for_each_symbol_quiet s l w :
  (1 ≤ short_window (self w))%Z → (0 ≤ long_window (self w))%Z →
  (Z.of_nat (available (dw w) s) ≤ short_window (self w))%Z →
  signals_for s (events (dw (snd (for_each l loop_turn w))))
  = signals_for s (events (dw w)).
Proof.
  revert w. induction l as [|k l IH]; intros w Hn HN Hav; simpl; [done |].
  unfold bind, loop_turn, tick, modify, bind.
  destruct (calculate_signals_symbol_frame k w) as (Fb & Fs & Fl & Fe).
  assert (Hk : signals_for s (events (dw (snd (calculate_signals_symbol k w))))
               = signals_for s (events (dw w))).
  { destruct (decide (k = s)) as [->|Hne].
    - by rewrite calculate_signals_symbol_quiet.
    - destruct Fe as [->|[dir ->]]; [done |].
      rewrite signals_for_app. simpl.
      rewrite (proj2 (String.eqb_neq k s) Hne). by rewrite app_nil_r. }
  destruct (calculate_signals_symbol k w) as [[u|e] w1]; simpl in *; [|done].
  rewrite IH; simpl; [done | | |].
  - by rewrite Fs.
  - by rewrite Fl.
  - unfold available in *. by rewrite Fb, Fs.
Qed.

(** C4, as the code has it: with windows of at least one bar, a Market
    event makes the strategy enqueue no SignalEvent for a symbol while
    the bars available for it do not exceed [short_window] (both means
    are then taken over the same bars).  The code has no test on
    [long_window]. *)
Theorem mac_no_signal_within_short_window w event s :
  (1 ≤ short_window (self w))%Z → (0 ≤ long_window (self w))%Z →
  (Z.of_nat (available (dw w) s) ≤ short_window (self w))%Z →
  signals_for s (events (dw (snd (calculate_signals event w))))
  = signals_for s (events (dw w)).
Proof.
  intros Hn HN Hav. unfold calculate_signals.
  destruct (String.eqb (event_type event) "MARKET"); [|done].
  unfold bind, gets. cbv beta. by apply for_each_symbol_quiet.
Qed.

(** A freshly constructed strategy holds the string ['OUT'], which
    tests true, for every tracked symbol. *)
Lemma init_bought_out bars n N s :
  s ∈ Data.symbol_list bars →
  bought (init bars n N) !! s = Some (VStr "OUT")
  ∧ truthy (VStr "OUT") = true.
Proof.
  intros Hs. split; [|reflexivity]. unfold init, _calculate_initial_bought.
  simpl. rewrite (foldl_insert_lookup (fun _ => VStr "OUT")).
  by rewrite decide_True.
Qed.

(** X10: a cross of the short mean above the long one, by the value of
    the flag: a false flag gives exactly one LONG signal and becomes
    [True]; a true one gives nothing. *)
Lemma mac_cross_above s w a date v :
  get_latest_bars_values s "adj_close" (long_window (self w)) (dw w)
  = (Val a, dw w) →
  get_latest_bar_datetime s (dw w) = (Val date, dw w) →
  a ≠ [] →
  gt (short_sma w a) (long_sma w a) = true →
  bought (self w) !! s = Some v →
  if truthy v then calculate_signals_symbol s w = (Val tt, w)
  else ∃ w',
      calculate_signals_symbol s w = (Val tt, w')
      ∧ events (dw w') = events (dw w) ++ [SignalEvent 1 s (utcnow w) "LONG" 1]
      ∧ bought (self w') = <[s := VBool true]> (bought (self w)).
Proof.
  intros Ea Ed Hne Hgt Hv.
  unfold short_sma, long_sma in Hgt.
  destruct w as [[sw lw bt] d now later]. simpl in *.
  unfold calculate_signals_symbol, bind, gets, data, lift. cbv beta.
  simpl. rewrite Ea. simpl. rewrite Ed. simpl.
  destruct a as [|x a]; [done |]. simpl (0 <? _)%nat. cbv iota.
  rewrite Hgt.
  unfold get_bought, bind, ret. simpl. rewrite Hv.
  destruct (truthy v); simpl.
  - unfold lt. rewrite (gt_asym _ _ Hgt). reflexivity.
  - eexists. split; [reflexivity |]. simpl. done.
Qed.

End MacFacts.

Section MacExamples.

Import Data Mac MacSpec Examples.

Lemma mac_no_signal_within_short_window_witness :
  signals_for "AAPL"
    (events (dw (snd (calculate_signals MarketEvent (mac_world 2 3 w_end)))))
  = signals_for "AAPL" (events (dw (mac_world 2 3 w_end))).
Proof.
  apply (mac_no_signal_within_short_window (mac_world 2 3 w_end)
           MarketEvent "AAPL").
  - simpl. lia.
  - simpl. lia.
  - vm_compute. discriminate.
Defined.

(** C4 as stated fails: with [long_window = 10] and only three bars
    observed, the third MarketEvent makes the strategy enqueue a LONG
    signal (the second one had already produced an EXIT). *)
Lemma mac_signal_before_long_window :
  (Z.of_nat (available (dw mac_third_bar) "AAPL")
   < long_window (self mac_third_bar))%Z
  ∧ signals_for "AAPL" (events (dw mac_third_bar))
    = [SignalEvent 1 "AAPL" 0 "EXIT" 1]
  ∧ signals_for "AAPL"
      (events (dw (snd (calculate_signals MarketEvent mac_third_bar))))
    = [SignalEvent 1 "AAPL" 0 "EXIT" 1; SignalEvent 1 "AAPL" 0 "LONG" 1].
Proof. split_and!; vm_compute; reflexivity. Qed.

(** C5 fails on the code: a freshly constructed strategy is flat, its
    flag being the string ['OUT'].  At the first MarketEvent where the
    short mean (2) is above the long mean (3/2) nothing is enqueued and
    the flag is unchanged. *)
Theorem mac_first_cross_emits_nothing :
  bought (self mac_first_cross) !! "AAPL" = Some (VStr "OUT")
  ∧ fst (get_latest_bars_values "AAPL" "adj_close" 2 (dw mac_first_cross))
    = Val [1%Q; 2%Q]
  ∧ gt (short_sma mac_first_cross [1%Q; 2%Q])
       (long_sma mac_first_cross [1%Q; 2%Q]) = true
  ∧ calculate_signals MarketEvent mac_first_cross = (Val tt, mac_first_cross).
Proof. split_and!; vm_compute; reflexivity. Qed.

End MacExamples.

(** ** The pairs mean-reversion strategy *)

Section PairsFacts.

Import IntradayMr PairsSpec.

Lemma Qleb_le a b : Qleb a b = true ↔ (a <= b)%Q.
Proof.
  unfold Qleb. rewrite Qle_alt.
  destruct (a ?= b)%Q; split; intros; congruence.
Qed.

(** The [if]/[elif] chain, by the first rule whose condition holds. *)
Lemma calculate_xy_signals_rules w z h :
  hedge_ratio (self w) = Some h →
  (enter_long w z →
     calculate_xy_signals z w
     = (Val (Some (SignalEvent 1 (fst (pair (self w))) (datetime (self w)) "LONG" 1),
             Some (SignalEvent 1 (snd (pair (self w))) (datetime (self w)) "SHORT" (Qabs h))),
        set_long_market true w))
  ∧ (¬ enter_long w z → exit_long w z →
     calculate_xy_signals z w
     = (Val (Some (SignalEvent 1 (fst (pair (self w))) (datetime (self w)) "EXIT" 1),
             Some (SignalEvent 1 (snd (pair (self w))) (datetime (self w)) "EXIT" 1)),
        set_long_market false w))
  ∧ (¬ enter_long w z → ¬ exit_long w z → enter_short w z →
     calculate_xy_signals z w
     = (Val (Some (SignalEvent 1 (fst (pair (self w))) (datetime (self w)) "SHORT" 1),
             Some (SignalEvent 1 (snd (pair (self w))) (datetime (self w)) "LONG" (Qabs h))),
        set_short_market true w))
  ∧ (¬ enter_long w z → ¬ exit_long w z → ¬ enter_short w z → exit_short w z →
     calculate_xy_signals z w
     = (Val (Some (SignalEvent 1 (fst (pair (self w))) (datetime (self w)) "EXIT" 1),
             Some (SignalEvent 1 (snd (pair (self w))) (datetime (self w)) "EXIT" 1)),
        set_short_market false w))
  ∧ (¬ enter_long w z → ¬ exit_long w z → ¬ enter_short w z → ¬ exit_short w z →
     calculate_xy_signals z w = (Val (None, None), w)).
Proof.
  intros Hh.
  unfold enter_long, exit_long, enter_short, exit_short.
  rewrite <- !Qleb_le.
  unfold calculate_xy_signals, get_hedge_ratio, bind, gets, modify, ret.
  cbv beta. rewrite Hh. simpl.
  destruct (Qleb z (- zscore_high (self w))),
           (Qleb (Qabs z) (zscore_low (self w))),
           (Qleb (zscore_high (self w)) z),
           (long_market (self w)), (short_market (self w));
    simpl; repeat split; intros; try reflexivity;
    repeat match goal with
           | H : _ ∧ _ |- _ => destruct H
           | H : ¬ (_ ∧ _) |- _ => exfalso; apply H; split; reflexivity
           end; try discriminate.
Qed.

(** C6, as the code has it: on a Market event with both windows full
    the strategy fits the hedge ratio [h], takes the z-score [z] and
    applies the first of four rules whose condition holds:
    long [y] / short [x] when [z <= -zscore_high] and not long;
    exit when [|z| <= zscore_low] and long;
    short [y] / long [x] when [z >= zscore_high] and not short;
    exit when [|z| <= zscore_low] and short;
    and nothing is enqueued when none holds. *)
Theorem pairs_transition_rules ols zs w y x :
  full_windows w y x →
  ∃ w',
    calculate_signals ols zs MarketEvent w = (Val tt, w')
    ∧ hedge_ratio (self w') = Some (ols y x)
    ∧ (enter_long w (zs (ols y x) y x) →
         emitted w w' (pair_signals w "LONG" "SHORT" (Qabs (ols y x)))
         ∧ flags w' = (true, short_market (self w)))
    ∧ (¬ enter_long w (zs (ols y x) y x) → exit_long w (zs (ols y x) y x) →
         emitted w w' (pair_signals w "EXIT" "EXIT" 1)
         ∧ flags w' = (false, short_market (self w)))
    ∧ (¬ enter_long w (zs (ols y x) y x) → ¬ exit_long w (zs (ols y x) y x) →
       enter_short w (zs (ols y x) y x) →
         emitted w w' (pair_signals w "SHORT" "LONG" (Qabs (ols y x)))
         ∧ flags w' = (long_market (self w), true))
    ∧ (¬ enter_long w (zs (ols y x) y x) → ¬ exit_long w (zs (ols y x) y x) →
       ¬ enter_short w (zs (ols y x) y x) → exit_short w (zs (ols y x) y x) →
         emitted w w' (pair_signals w "EXIT" "EXIT" 1)
         ∧ flags w' = (long_market (self w), false))
    ∧ (¬ enter_long w (zs (ols y x) y x) → ¬ exit_long w (zs (ols y x) y x) →
       ¬ enter_short w (zs (ols y x) y x) → ¬ exit_short w (zs (ols y x) y x) →
         emitted w w' [] ∧ flags w' = flags w).
Proof.
  intros (Ey & Ex & Ly & Lx).
  unfold enter_long, exit_long, enter_short, exit_short, emitted, flags,
    pair_signals.
  repeat setoid_rewrite <- Qleb_le.
  unfold calculate_signals, calculate_signals_for_pairs. simpl.
  unfold bind, gets, data, lift. cbv beta.
  rewrite Ey. simpl. rewrite Ex. simpl.
  rewrite (proj2 (Z.leb_le _ _) Ly), (proj2 (Z.leb_le _ _) Lx). simpl.
  unfold calculate_xy_signals, get_hedge_ratio, bind, gets, modify, ret.
  simpl.
  pairs_cases w; simpl; eexists; (split; [reflexivity |]); simpl;
    (split; [reflexivity |]);
    rewrite ?Hlong, ?Hshort;
    repeat split; intros; absurd_rule; try reflexivity;
    first [by rewrite app_nil_r | by rewrite <- app_assoc].
Qed.

(** C7, as the code has it: on a Market event with both windows full,
    either no flag changes and nothing is enqueued, or a flag changes
    and exactly two signals are enqueued, the [y] leg with strength 1
    followed by the [x] leg: with strength [|h|] on an entry, and with
    strength 1 on an exit. *)
Theorem pairs_transition_signals ols zs w y x :
  full_windows w y x →
  ∃ w',
    calculate_signals ols zs MarketEvent w = (Val tt, w')
    ∧ ((flags w' = flags w ∧ emitted w w' [])
       ∨ (flags w' ≠ flags w
          ∧ (emitted w w' (pair_signals w "LONG" "SHORT" (Qabs (ols y x)))
             ∨ emitted w w' (pair_signals w "SHORT" "LONG" (Qabs (ols y x)))))
       ∨ (flags w' ≠ flags w
          ∧ emitted w w' (pair_signals w "EXIT" "EXIT" 1))).
Proof.
  intros (Ey & Ex & Ly & Lx).
  unfold emitted, flags, pair_signals.
  unfold calculate_signals, calculate_signals_for_pairs. simpl.
  unfold bind, gets, data, lift. cbv beta.
  rewrite Ey. simpl. rewrite Ex. simpl.
  rewrite (proj2 (Z.leb_le _ _) Ly), (proj2 (Z.leb_le _ _) Lx). simpl.
  unfold calculate_xy_signals, get_hedge_ratio, bind, gets, modify, ret.
  simpl.
  pairs_cases w; simpl; eexists; (split; [reflexivity |]); simpl;
    rewrite ?Hlong, ?Hshort;
    first
      [ left; split; [reflexivity | by rewrite app_nil_r]
      | right; left; split; [discriminate |];
        (left + right); by rewrite <- app_assoc
      | right; right; split; [discriminate | by rewrite <- app_assoc] ].
Qed.

End PairsFacts.

Section PairsExamples.

Import IntradayMr PairsSpec Numerics Examples.

(** The fit and the z-score of the two windows, computed exactly: on
    the seventeenth bar the slope is 33 and the last residual lies four
    standard deviations below the mean; on the eighteenth the slope is
    32.9375 and the last residual is the mean. *)
Lemma numerics_of_windows :
  (ols_fit y17 x17 == 33)%Q
  ∧ zscore_last (ols_fit y17 x17) y17 x17 = Some (-4)%Q
  ∧ (ols_fit y18 x17 == 527 # 16)%Q
  ∧ zscore_last (ols_fit y18 x17) y18 x17 = Some 0%Q.
Proof. split_and!; vm_compute; reflexivity. Qed.

Lemma pairs_bar17_full : full_windows (pairs_at_bar 17) y17 x17.
Proof.
  split_and!; first [vm_compute; reflexivity | vm_compute; discriminate].
Qed.

Lemma pairs_bar18_full : full_windows (pairs_at_bar 18) y18 x17.
Proof.
  split_and!; first [vm_compute; reflexivity | vm_compute; discriminate].
Qed.

Lemma pairs_transition_rules_witness :
  ∃ w',
    calculate_signals ols_fit zscore MarketEvent (pairs_at_bar 17)
    = (Val tt, w')
    ∧ emitted (pairs_at_bar 17) w'
        (pair_signals (pairs_at_bar 17) "LONG" "SHORT"
           (Qabs (ols_fit y17 x17)))
    ∧ flags w' = (true, false).
Proof.
  destruct (pairs_transition_rules ols_fit zscore (pairs_at_bar 17) y17 x17)
    as (w' & Hrun & _ & Hrule & _).
  - split_and!; first [vm_compute; reflexivity | vm_compute; discriminate].
  - exists w'. split; [exact Hrun |]. apply Hrule.
    split; [vm_compute; discriminate | reflexivity].
Defined.

(** C6 as stated fails.  [IntradayOLSMRStrategy(bars, events,
    ols_window=17)] on the pair of [pairs_frame]: the first sixteen
    MarketEvents find the windows short and change nothing; on the
    seventeenth the z-score is -4, below [-zscore_high = -3], the
    strategy is not long, and the signals are LONG on the [y] leg and
    SHORT on the [x] leg, not the other way round. *)
Lemma pairs_low_zscore_goes_long_y :
  full_windows (pairs_at_bar 17) y17 x17
  ∧ zscore_last (ols_fit y17 x17) y17 x17 = Some (-4)%Q
  ∧ enter_long (pairs_at_bar 17) (zscore (ols_fit y17 x17) y17 x17)
  ∧ emitted (pairs_at_bar 17)
      (snd (calculate_signals ols_fit zscore MarketEvent (pairs_at_bar 17)))
      [SignalEvent 1 "AREX" 0 "LONG" 1;
       SignalEvent 1 "WLL" 0 "SHORT" (Qabs (ols_fit y17 x17))]
  ∧ ¬ emitted (pairs_at_bar 17)
        (snd (calculate_signals ols_fit zscore MarketEvent (pairs_at_bar 17)))
        (pair_signals (pairs_at_bar 17) "SHORT" "LONG"
           (Qabs (ols_fit y17 x17))).
Proof.
  split; [apply pairs_bar17_full |].
  split; [vm_compute; reflexivity |].
  split; [split; [vm_compute; discriminate | vm_compute; reflexivity] |].
  split; [vm_compute; reflexivity |].
  vm_compute. discriminate.
Qed.

Lemma pairs_transition_signals_witness :
  ∃ w',
    calculate_signals ols_fit zscore MarketEvent (pairs_at_bar 18)
    = (Val tt, w')
    ∧ ((flags w' = flags (pairs_at_bar 18) ∧ emitted (pairs_at_bar 18) w' [])
       ∨ (flags w' ≠ flags (pairs_at_bar 18)
          ∧ (emitted (pairs_at_bar 18) w'
               (pair_signals (pairs_at_bar 18) "LONG" "SHORT"
                  (Qabs (ols_fit y18 x17)))
             ∨ emitted (pairs_at_bar 18) w'
                 (pair_signals (pairs_at_bar 18) "SHORT" "LONG"
                    (Qabs (ols_fit y18 x17)))))
       ∨ (flags w' ≠ flags (pairs_at_bar 18)
          ∧ emitted (pairs_at_bar 18) w'
              (pair_signals (pairs_at_bar 18) "EXIT" "EXIT" 1))).
Proof.
  apply (pairs_transition_signals ols_fit zscore (pairs_at_bar 18) y18 x17).
  split_and!; first [vm_compute; reflexivity | vm_compute; discriminate].
Defined.

(** C7 as stated fails.  The same run one bar later: the strategy went
    long on the seventeenth bar, and on the eighteenth the z-score is 0,
    inside the exit band.  Both EXIT signals carry strength 1, the [x]
    leg's too, while the hedge ratio just fitted is 32.9375. *)
Lemma pairs_exit_x_strength_is_one :
  zscore_last (ols_fit y17 x17) y17 x17 = Some (-4)%Q
  ∧ flags (pairs_at_bar 18) = (true, false)
  ∧ full_windows (pairs_at_bar 18) y18 x17
  ∧ zscore_last (ols_fit y18 x17) y18 x17 = Some 0%Q
  ∧ flags (snd (calculate_signals ols_fit zscore MarketEvent
                  (pairs_at_bar 18))) = (false, false)
  ∧ hedge_ratio (self (snd (calculate_signals ols_fit zscore MarketEvent
                              (pairs_at_bar 18))))
    = Some (ols_fit y18 x17)
  ∧ (ols_fit y18 x17 == 527 # 16)%Q
  ∧ emitted (pairs_at_bar 18)
      (snd (calculate_signals ols_fit zscore MarketEvent (pairs_at_bar 18)))
      [SignalEvent 1 "AREX" 0 "EXIT" 1; SignalEvent 1 "WLL" 0 "EXIT" 1]
  ∧ ¬ (1 == Qabs (ols_fit y18 x17))%Q.
Proof.
  split; [vm_compute; reflexivity |].
  split; [vm_compute; reflexivity |].
  split; [apply pairs_bar18_full |].
  split_and!; first [vm_compute; reflexivity | vm_compute; discriminate].
Qed.

End PairsExamples.

(** ** The broker-backed execution handler *)

Section IbFacts.

Import IbExecution IbSpec.

Variable str : Msg → string.

(** The class binds neither of the names the reply handler calls. *)
Lemma class_attrs_underscore :
  class_attrs str "_create_fill" = None
  ∧ class_attrs str "_create_fill_dict_entry" = None
  ∧ hasattr "_create_fill" = false
  ∧ hasattr "_create_fill_dict_entry" = false
  ∧ hasattr "create_fill" = true.
Proof. split_and!; vm_compute; reflexivity. Qed.

(** [__init__] does not return. *)
Lemma init_raises routing currency :
  init routing currency = Raise AttributeError.
Proof. reflexivity. Qed.

(** On the class as written, a "Filled" status for a pending entry
    raises, and neither a FillEvent nor the flag is set. *)
Lemma reply_handler_filled_raises w id q p fd :
  fill_dict (self w) !! id = Some fd → filled fd = false →
  _reply_handler str (class_attrs str) (OrderStatusMsg id "Filled" q p) w
  = (Raise AttributeError, w).
Proof.
  intros Hfd Hf. unfold _reply_handler, bind, gets. cbv beta.
  rewrite Hfd, Hf. reflexivity.
Qed.

(** *** Whichever of the helper names resolve *)









End IbFacts.

Section IbExamples.

Import IbExecution IbSpec Examples.


(** The class as written: the constructor raises, and so does the
    reply handler on the [openOrder] reply for the current order id and
    on a "Filled" status for an unfilled entry; the session below
    enqueues nothing. *)
Example ib_session_as_written :
  init "SMART" "USD" = Raise AttributeError
  ∧ fst (_reply_handler msg_text (class_attrs msg_text) msg_open ib_fresh)
    = Raise AttributeError
  ∧ _reply_handler msg_text (class_attrs msg_text) msg_filled ib_pending
    = (Raise AttributeError, ib_pending)
  ∧ events (deliver msg_text (class_attrs msg_text)
              [msg_open; msg_filled; msg_filled] ib_fresh) = [].
Proof. split_and!; vm_compute; reflexivity. Qed.

(** The same session with the names bound as the call sites expect:
    one FillEvent, from the first "Filled" status only. *)
Example ib_underscored_session :
  events (deliver msg_text (underscored_attrs msg_text)
            [msg_open; msg_filled; msg_filled] ib_fresh)
  = [FillEvent 0 "AAPL" "SMART" 100 "BUY" (5 # 2)]
  ∧ fills_for msg_text (underscored_attrs msg_text) 1
      [msg_open; msg_filled; msg_filled] ib_fresh
    = 1%nat.
Proof. split_and!; vm_compute; reflexivity. Qed.

End IbExamples.

(** ** The orchestrator *)

Section TraceFacts.

Import Backtest BacktestSpec.

Lemma gets_of_puts new : gets_of (ObsPut <$> new) = [].
Proof. unfold gets_of. induction new; simpl; done. Qed.

Lemma calls_of_puts new : calls_of (ObsPut <$> new) = [].
Proof. unfold calls_of. induction new; simpl; done. Qed.

Lemma puts_of_puts new : puts_of (ObsPut <$> new) = new.
Proof.
  unfold puts_of. induction new as [|e new IH]; simpl; [done |].
  f_equal. exact IH.
Qed.

Lemma quiet_puts new : quiet (ObsPut <$> new).
Proof. induction new; constructor; done. Qed.

Lemma quiet_app l1 l2 : quiet l1 → quiet l2 → quiet (l1 ++ l2).
Proof. apply Forall_app_2. Qed.

Lemma boundaries_ok_quiet t l :
  boundaries_ok t → quiet l → boundaries_ok (t ++ l).
Proof.
  intros Ht Hl i q Hi.
  apply lookup_app_Some in Hi as [Hi | [Hge Hi]].
  - rewrite take_app_le by (apply Nat.lt_le_incl; by eapply lookup_lt_Some).
    by apply Ht.
  - exfalso. apply list_elem_of_lookup_2 in Hi.
    unfold quiet in Hl. rewrite Forall_forall in Hl.
    by apply (Hl _ Hi q).
Qed.

Lemma boundaries_ok_update t :
  boundaries_ok t →
  puts_of t = gets_of t → calls_of t = concat (route <$> gets_of t) →
  boundaries_ok (t ++ [ObsUpdateBars []]).
Proof.
  intros Ht Hp Hc i q Hi.
  apply lookup_app_Some in Hi as [Hi | [Hge Hi]].
  - rewrite take_app_le by (apply Nat.lt_le_incl; by eapply lookup_lt_Some).
    by apply Ht.
  - destruct (i - length t)%nat as [|k] eqn:Ek; simpl in Hi; [|done].
    injection Hi as <-.
    assert (i = length t) as -> by lia.
    by rewrite take_app_length.
Qed.

End TraceFacts.

Section BacktestFacts.

Import Backtest BacktestSpec.

Context {R : Type}.
Variable continue_backtest : R → bool.
Variable update_bars : Method R.
Variables calculate_signals update_timeindex update_signal execute_order
          update_fill : Event → Method R.

Local Abbreviation dispatch' :=
  (dispatch calculate_signals update_timeindex update_signal execute_order
            update_fill).
Local Abbreviation handle_events' :=
  (handle_events calculate_signals update_timeindex update_signal
                 execute_order update_fill).
Local Abbreviation run' :=
  (_run_backtest continue_backtest update_bars calculate_signals
                 update_timeindex update_signal execute_order update_fill).
Local Abbreviation method_named' :=
  (method_named calculate_signals update_timeindex update_signal
                execute_order update_fill).
Local Abbreviation explains' :=
  (explains update_bars calculate_signals update_timeindex update_signal
            execute_order update_fill).

(** A role method adds its puts to the queue and to the trace, and
    nothing else. *)
Lemma call_effect name (m : Event → Method R) e (b : State R) :
  ∃ new,
    trace (snd (call name m e b))
    = trace b ++ ObsCall name e :: (ObsPut <$> new)
    ∧ events (snd (call name m e b)) = events b ++ new.
Proof.
  unfold call, observe, run_method, bind, modify. simpl.
  destruct (m e (roles b)) as [[r ro] new]. simpl.
  exists new. split; [|done].
  by rewrite <- app_assoc.
Qed.

(** Handling a popped event: no call of [update_bars()]; and if the
    handler returns, the roles of the event's tag were called and their
    puts are at the back of the queue. *)
Lemma dispatch_effect e (b : State R) :
  ∃ l,
    trace (snd (dispatch' e b)) = trace b ++ l
    ∧ quiet l
    ∧ (∀ u, fst (dispatch' e b) = Val u →
         events (snd (dispatch' e b)) = events b ++ puts_of l
         ∧ gets_of l = []
         ∧ calls_of l = route e).
Proof.
  destruct e as [| si sy dt ty st | sy ot qu di | ti sy ex qu di fc];
    unfold dispatch; simpl.
  - unfold _handle_market_event, bind.
    destruct (call_effect "calculate_signals" calculate_signals MarketEvent b)
      as (n1 & Ht1 & He1).
    destruct (call _ calculate_signals MarketEvent b) as [[u1|x1] b1];
      simpl in *.
    + destruct (call_effect "update_timeindex" update_timeindex MarketEvent b1)
        as (n2 & Ht2 & He2).
      destruct (call _ update_timeindex MarketEvent b1) as [[u2|x2] b2];
        simpl in *.
      * eexists. split; [by rewrite Ht2, Ht1, <- app_assoc |].
        split.
        { apply quiet_app; constructor; try done; apply quiet_puts. }
        intros ? _. rewrite He2, He1.
        unfold puts_of, gets_of, calls_of. simpl.
        rewrite !omap_app. simpl.
        fold (puts_of (ObsPut <$> n1)) (puts_of (ObsPut <$> n2))
             (gets_of (ObsPut <$> n1)) (gets_of (ObsPut <$> n2))
             (calls_of (ObsPut <$> n1)) (calls_of (ObsPut <$> n2)).
        rewrite !puts_of_puts, !gets_of_puts, !calls_of_puts.
        by rewrite <- app_assoc.
      * eexists. split; [by rewrite Ht2, Ht1, <- app_assoc |].
        split; [|done].
        apply quiet_app; constructor; try done; apply quiet_puts.
    + eexists. split; [exact Ht1 |].
      split; [|done]. constructor; [done | apply quiet_puts].
  - unfold _handle_signal_event, bind, modify. simpl.
    match goal with |- context [call _ _ _ ?b0] => set (b1 := b0) end.
    destruct (call_effect "update_signal" update_signal
                (SignalEvent si sy dt ty st) b1) as (n1 & Ht1 & He1).
    eexists. split; [exact Ht1 |].
    split; [constructor; [done | apply quiet_puts] |].
    intros ? _. rewrite He1.
    unfold puts_of, gets_of, calls_of. simpl.
    fold (puts_of (ObsPut <$> n1)) (gets_of (ObsPut <$> n1))
         (calls_of (ObsPut <$> n1)).
    by rewrite puts_of_puts, gets_of_puts, calls_of_puts.
  - unfold _handle_order_event, bind, modify. simpl.
    match goal with |- context [call _ _ _ ?b0] => set (b1 := b0) end.
    destruct (call_effect "execute_order" execute_order
                (OrderEvent sy ot qu di) b1) as (n1 & Ht1 & He1).
    eexists. split; [exact Ht1 |].
    split; [constructor; [done | apply quiet_puts] |].
    intros ? _. rewrite He1.
    unfold puts_of, gets_of, calls_of. simpl.
    fold (puts_of (ObsPut <$> n1)) (gets_of (ObsPut <$> n1))
         (calls_of (ObsPut <$> n1)).
    by rewrite puts_of_puts, gets_of_puts, calls_of_puts.
  - unfold _handle_fill_event, bind, modify. simpl.
    match goal with |- context [call _ _ _ ?b0] => set (b1 := b0) end.
    destruct (call_effect "update_fill" update_fill
                (FillEvent ti sy ex qu di fc) b1) as (n1 & Ht1 & He1).
    eexists. split; [exact Ht1 |].
    split; [constructor; [done | apply quiet_puts] |].
    intros ? _. rewrite He1.
    unfold puts_of, gets_of, calls_of. simpl.
    fold (puts_of (ObsPut <$> n1)) (gets_of (ObsPut <$> n1))
         (calls_of (ObsPut <$> n1)).
    by rewrite puts_of_puts, gets_of_puts, calls_of_puts.
Qed.

Lemma puts_of_app l1 l2 : puts_of (l1 ++ l2) = puts_of l1 ++ puts_of l2.
Proof. apply omap_app. Qed.

Lemma gets_of_app l1 l2 : gets_of (l1 ++ l2) = gets_of l1 ++ gets_of l2.
Proof. apply omap_app. Qed.

Lemma calls_of_app l1 l2 : calls_of (l1 ++ l2) = calls_of l1 ++ calls_of l2.
Proof. apply omap_app. Qed.

(** One turn of the inner loop keeps the books balanced. *)
Lemma pop_dispatch_settled e q (b : State R) u :
  settled b → events b = e :: q →
  fst (dispatch' e (snd (get b))) = Val u →
  settled (snd (dispatch' e (snd (get b)))).
Proof.
  intros [Hp Hc] Hq Hu. unfold get in *. rewrite Hq in *. simpl in *.
  match type of Hu with context [dispatch' e ?b0] => set (b1 := b0) in * end.
  destruct (dispatch_effect e b1) as (l & Ht & _ & Hl).
  destruct (Hl u Hu) as (He & Hg & Hcl).
  unfold settled. rewrite Ht, He. subst b1. simpl.
  rewrite !puts_of_app, !gets_of_app, !calls_of_app, Hg, Hcl, Hp, Hc.
  simpl. rewrite !app_nil_r. split.
  - rewrite <- !app_assoc. simpl. done.
  - rewrite fmap_app, concat_app. simpl. by rewrite app_nil_r.
Qed.

(** The inner loop: it never calls [update_bars()]; when it leaves by
    its [break] the queue is empty and the books are balanced. *)
Lemma handle_events_effect fuel (b : State R) res b' :
  handle_events' fuel b = Some (res, b') → settled b →
  (∃ l, trace b' = trace b ++ l ∧ quiet l)
  ∧ (res = Val tt → settled b' ∧ events b' = []).
Proof.
  revert b. induction fuel as [|fuel IH]; intros b Hrun Hs; simpl in Hrun;
    [done |].
  destruct (events b) as [|e q] eqn:Hq.
  - unfold get in Hrun. rewrite Hq in Hrun. injection Hrun as <- <-.
    split; [exists []; split; [by rewrite app_nil_r | constructor] | done].
  - pose proof (pop_dispatch_settled e q b) as Hpop.
    unfold get in Hrun, Hpop. rewrite Hq in Hrun, Hpop. simpl in Hrun, Hpop.
    match type of Hrun with context [dispatch' e ?b0] => set (b1 := b0) in * end.
    destruct (dispatch_effect e b1) as (l1 & Ht1 & Hq1 & _).
    destruct (dispatch' e b1) as [[u|x] b2] eqn:Hd; simpl in *.
    + destruct (IH b2 Hrun (Hpop u Hs eq_refl eq_refl)) as [(l2 & Ht2 & Hq2) Hres].
      split; [|exact Hres].
      exists (ObsGet e :: l1 ++ l2). split.
      * rewrite Ht2, Ht1. subst b1. simpl. by rewrite <- !app_assoc.
      * constructor; [done | by apply quiet_app].
    + injection Hrun as <- <-. split; [|done].
      exists (ObsGet e :: l1). split.
      * rewrite Ht1. subst b1. simpl. by rewrite <- !app_assoc.
      * by constructor.
Qed.

(** A call of [update_bars()] made with an empty queue and balanced
    books. *)
Lemma call_update_bars_effect (b : State R) :
  settled b → events b = [] → boundaries_ok (trace b) →
  boundaries_ok (trace (snd (call_update_bars update_bars b)))
  ∧ settled (snd (call_update_bars update_bars b)).
Proof.
  intros [Hp Hc] Hq Hb.
  unfold call_update_bars, observe, run_method, bind, gets, modify. simpl.
  destruct (update_bars (roles b)) as [[r ro] new]. simpl.
  rewrite Hq in *. rewrite app_nil_r in Hp.
  split.
  - apply boundaries_ok_quiet; [| apply quiet_puts].
    by apply boundaries_ok_update.
  - unfold settled. simpl.
    rewrite !puts_of_app, !gets_of_app, !calls_of_app.
    rewrite puts_of_puts, gets_of_puts, calls_of_puts. simpl.
    rewrite !app_nil_r. by rewrite Hp, Hc.
Qed.

Lemma run_backtest_effect fuel (b : State R) res b' :
  run' fuel b = Some (res, b') →
  settled b → events b = [] → boundaries_ok (trace b) →
  boundaries_ok (trace b')
  ∧ (res = Val tt →
     settled b' ∧ events b' = [] ∧ continue_backtest (roles b') = false).
Proof.
  revert b. induction fuel as [|fuel IH]; intros b Hrun Hs Hq Hb;
    simpl in Hrun; [done |].
  destruct (continue_backtest (roles b)) eqn:Hc.
  2:{ injection Hrun as <- <-. done. }
  destruct (call_update_bars_effect b Hs Hq Hb) as [Hb1 Hs1].
  destruct (call_update_bars update_bars b) as [[u|x] b1]; simpl in *.
  2:{ injection Hrun as <- <-. done. }
  destruct (handle_events' fuel b1) as [[[u2|x2] b2]|] eqn:Hh; [| |done].
  - destruct (handle_events_effect fuel b1 _ b2 Hh Hs1)
      as [(l & Ht & Hl) Hres].
    destruct u2. destruct (Hres eq_refl) as [Hs2 Hq2].
    apply (IH b2 Hrun Hs2 Hq2).
    rewrite Ht. by apply boundaries_ok_quiet.
  - injection Hrun as <- <-.
    destruct (handle_events_effect fuel b1 _ b2 Hh Hs1) as [(l & Ht & Hl) _].
    split; [|done]. rewrite Ht. by apply boundaries_ok_quiet.
Qed.

(** *** The inner loop ends when the roles follow the pipeline *)

Lemma shorter_wf : well_founded shorter.
Proof.
  unfold shorter. repeat apply wf_slexprod; apply lt_wf.
Qed.

Lemma count_app k q1 q2 : count k (q1 ++ q2) = (count k q1 + count k q2)%nat.
Proof. unfold count. by rewrite List.filter_app, length_app. Qed.

Lemma count_below k j new :
  Forall (fun e' => rank e' < k) new → (k ≤ j)%nat → count j new = 0%nat.
Proof.
  intros Hn Hj. unfold count.
  induction Hn as [|e new He _ IH]; simpl; [done |].
  destruct (Nat.eqb_spec (rank e) j); [lia | exact IH].
Qed.

Lemma count_single k e :
  count k [e] = if Nat.eqb (rank e) k then 1%nat else 0%nat.
Proof. unfold count. simpl. by destruct (Nat.eqb (rank e) k). Qed.

Lemma measure_pop e q new :
  Forall (fun e' => rank e' < rank e) new →
  shorter (measure (q ++ new)) (measure (e :: q)).
Proof.
  intros Hn. unfold measure, shorter.
  change (e :: q) with ([e] ++ q).
  rewrite !count_app, !count_single.
  destruct e; simpl in *.
  - rewrite (count_below 3 3 new) by done.
    apply left_slex. unfold Nat.lt. lia.
  - rewrite (count_below 2 3 new), (count_below 2 2 new) by (done || lia).
    rewrite Nat.add_0_r. apply right_slex, left_slex. unfold Nat.lt. lia.
  - rewrite (count_below 1 3 new), (count_below 1 2 new),
      (count_below 1 1 new) by (done || lia).
    rewrite !Nat.add_0_r. apply right_slex, right_slex, left_slex.
    unfold Nat.lt. lia.
  - rewrite (count_below 0 3 new), (count_below 0 2 new),
      (count_below 0 1 new), (count_below 0 0 new) by (done || lia).
    rewrite !Nat.add_0_r. apply right_slex, right_slex, right_slex.
    unfold Nat.lt. lia.
Qed.

(** *** What the trace records is what the roles did *)

Lemma call_explains r0 name (m : Event → Method R) e (b : State R) :
  method_named' name = Some m →
  explains' r0 (trace b) (Val tt) (roles b) →
  explains' r0 (trace (snd (call name m e b))) (fst (call name m e b))
            (roles (snd (call name m e b))).
Proof.
  intros Hn He. unfold call, observe, run_method, bind, modify. simpl.
  destruct (m e (roles b)) as [[res r'] new] eqn:Hm. simpl.
  rewrite <- app_assoc. simpl. by eapply explains_call.
Qed.

Lemma dispatch_explains r0 e (b : State R) :
  explains' r0 (trace b) (Val tt) (roles b) →
  explains' r0 (trace (snd (dispatch' e b))) (fst (dispatch' e b))
            (roles (snd (dispatch' e b))).
Proof.
  intros He.
  destruct e as [| si sy dt ty st | sy ot qu di | ti sy ex qu di fc];
    unfold dispatch; simpl.
  - unfold _handle_market_event, bind.
    pose proof (call_explains r0 "calculate_signals" calculate_signals
                  MarketEvent b eq_refl He) as H1.
    destruct (call "calculate_signals" calculate_signals MarketEvent b)
      as [[[]|x1] b1]; simpl in *; [|exact H1].
    apply (call_explains r0 "update_timeindex" update_timeindex MarketEvent
             b1 eq_refl H1).
  - unfold _handle_signal_event, bind, modify. simpl.
    by apply (call_explains r0 "update_signal" update_signal).
  - unfold _handle_order_event, bind, modify. simpl.
    by apply (call_explains r0 "execute_order" execute_order).
  - unfold _handle_fill_event, bind, modify. simpl.
    by apply (call_explains r0 "update_fill" update_fill).
Qed.

Lemma handle_events_explains r0 fuel (b : State R) res b' :
  handle_events' fuel b = Some (res, b') →
  explains' r0 (trace b) (Val tt) (roles b) →
  explains' r0 (trace b') res (roles b').
Proof.
  revert b. induction fuel as [|fuel IH]; intros b Hrun He; simpl in Hrun;
    [done |].
  unfold get in Hrun. destruct (events b) as [|e q] eqn:Hq.
  - by injection Hrun as <- <-.
  - simpl in Hrun.
    match type of Hrun with context [dispatch' e ?b0] => set (b1 := b0) in * end.
    assert (H1 : explains' r0 (trace b1) (Val tt) (roles b1)).
    { subst b1. simpl. by apply explains_get. }
    pose proof (dispatch_explains r0 e b1 H1) as H2.
    destruct (dispatch' e b1) as [[[]|x] b2]; simpl in *.
    + by apply (IH b2).
    + by injection Hrun as <- <-.
Qed.

Lemma call_update_bars_explains r0 (b : State R) :
  explains' r0 (trace b) (Val tt) (roles b) →
  explains' r0 (trace (snd (call_update_bars update_bars b)))
            (fst (call_update_bars update_bars b))
            (roles (snd (call_update_bars update_bars b))).
Proof.
  intros He.
  unfold call_update_bars, observe, run_method, bind, gets, modify. simpl.
  destruct (update_bars (roles b)) as [[res r'] new] eqn:Hm. simpl.
  rewrite <- app_assoc. simpl. by eapply explains_update.
Qed.

Lemma run_backtest_explains r0 fuel (b : State R) res b' :
  run' fuel b = Some (res, b') →
  explains' r0 (trace b) (Val tt) (roles b) →
  explains' r0 (trace b') res (roles b').
Proof.
  revert b. induction fuel as [|fuel IH]; intros b Hrun He; simpl in Hrun;
    [done |].
  destruct (continue_backtest (roles b)).
  2:{ by injection Hrun as <- <-. }
  pose proof (call_update_bars_explains r0 b He) as H1.
  destruct (call_update_bars update_bars b) as [[[]|x] b1]; simpl in *.
  2:{ by injection Hrun as <- <-. }
  destruct (handle_events' fuel b1) as [[[[]|x2] b2]|] eqn:Hh; [| |done].
  - apply (IH b2 Hrun). by apply (handle_events_explains r0 fuel b1 _ b2 Hh).
  - injection Hrun as <- <-.
    by apply (handle_events_explains r0 fuel b1 _ b2 Hh).
Qed.

(** *** The run ends when the roles follow the pipeline and the data
    run dry *)

Section Discipline.

Variable Inv : R → Prop.
Variable left : R → nat.

Hypothesis source_runs_dry : runs_dry Inv left continue_backtest update_bars.
Hypothesis strategy_follows : follows Inv left 3 calculate_signals.
Hypothesis timeindex_follows : follows Inv left 3 update_timeindex.
Hypothesis signal_follows : follows Inv left 2 update_signal.
Hypothesis order_follows : follows Inv left 1 execute_order.
Hypothesis fill_follows : follows Inv left 0 update_fill.

Lemma call_follows name (m : Event → Method R) k e (b : State R) u :
  follows Inv left k m → Inv (roles b) →
  fst (call name m e b) = Val u →
  Inv (roles (snd (call name m e b)))
  ∧ (left (roles (snd (call name m e b))) ≤ left (roles b))%nat
  ∧ ∃ new, events (snd (call name m e b)) = events b ++ new
           ∧ Forall (fun e' => rank e' < k) new.
Proof.
  intros Hm Hi. unfold call, observe, run_method, bind, modify. simpl.
  pose proof (Hm e (roles b)) as Hn.
  destruct (m e (roles b)) as [[r ro] new]. simpl in *.
  intros ->. destruct (Hn u Hi eq_refl) as (H1 & H2 & H3).
  split_and!; [done | done |]. by exists new.
Qed.

Lemma dispatch_follows e (b : State R) u :
  Inv (roles b) → fst (dispatch' e b) = Val u →
  Inv (roles (snd (dispatch' e b)))
  ∧ (left (roles (snd (dispatch' e b))) ≤ left (roles b))%nat
  ∧ ∃ new, events (snd (dispatch' e b)) = events b ++ new
           ∧ Forall (fun e' => rank e' < rank e) new.
Proof.
  intros Hi.
  destruct e as [| si sy dt ty st | sy ot qu di | ti sy ex qu di fc];
    unfold dispatch; simpl.
  - unfold _handle_market_event, bind.
    pose proof (call_follows "calculate_signals" calculate_signals 3
                  MarketEvent b) as H1.
    destruct (call _ calculate_signals MarketEvent b) as [[u1|x1] b1];
      simpl in *; [|done].
    destruct (H1 u1 strategy_follows Hi eq_refl)
      as (Hi1 & Hl1 & n1 & He1 & Hr1).
    pose proof (call_follows "update_timeindex" update_timeindex 3
                  MarketEvent b1) as H2.
    destruct (call _ update_timeindex MarketEvent b1) as [[u2|x2] b2];
      simpl in *; [|done].
    destruct (H2 u2 timeindex_follows Hi1 eq_refl)
      as (Hi2 & Hl2 & n2 & He2 & Hr2).
    intros _. split_and!; [done | lia |].
    exists (n1 ++ n2). split.
    + by rewrite He2, He1, <- app_assoc.
    + by apply Forall_app_2.
  - unfold _handle_signal_event, bind, modify. simpl. intros Hu.
    match goal with |- context [call _ _ _ ?b0] => set (b1 := b0) in * end.
    apply (call_follows "update_signal" update_signal 2 _ b1 u
             signal_follows Hi Hu).
  - unfold _handle_order_event, bind, modify. simpl. intros Hu.
    match goal with |- context [call _ _ _ ?b0] => set (b1 := b0) in * end.
    apply (call_follows "execute_order" execute_order 1 _ b1 u
             order_follows Hi Hu).
  - unfold _handle_fill_event, bind, modify. simpl. intros Hu.
    match goal with |- context [call _ _ _ ?b0] => set (b1 := b0) in * end.
    apply (call_follows "update_fill" update_fill 0 _ b1 u
             fill_follows Hi Hu).
Qed.

(** The inner loop reaches its [break], or the exception of a role. *)
Lemma handle_events_total (b : State R) :
  Inv (roles b) →
  ∃ fuel res b',
    (∀ n, (fuel ≤ n)%nat → handle_events' n b = Some (res, b'))
    ∧ (res = Val tt →
       Inv (roles b') ∧ (left (roles b') ≤ left (roles b))%nat).
Proof.
  remember (measure (events b)) as m eqn:Hm.
  revert b Hm. induction (shorter_wf m) as [m _ IH]. intros b -> Hi.
  destruct (events b) as [|e q] eqn:Hq.
  - exists 1%nat, (Val tt), b. split; [|done].
    intros [|n] Hn; [lia |]. simpl. unfold get. by rewrite Hq.
  - set (b1 := mkState (roles b) q (signals b) (orders b) (fills b)
                       (trace b ++ [ObsGet e])).
    destruct (dispatch' e b1) as [[u|x] b2] eqn:Hd.
    + destruct (dispatch_follows e b1 u) as (Hi2 & Hl2 & new & He & Hr);
        [done | by rewrite Hd |].
      rewrite Hd in He, Hi2, Hl2. simpl in He, Hi2, Hl2.
      destruct (IH (measure (events b2))) with (b := b2)
        as (fuel & res & b' & Hrun & Hres); [| done | done |].
      { rewrite He. by apply measure_pop. }
      exists (S fuel), res, b'. split.
      * intros [|n] Hn; [lia |]. simpl. unfold get. rewrite Hq.
        fold b1. rewrite Hd. apply Hrun. lia.
      * intros Hv. destruct (Hres Hv) as [? ?]. split; [done | lia].
    + exists 1%nat, (Raise x), b2. split; [|done].
      intros [|n] Hn; [lia |]. simpl. unfold get. rewrite Hq.
      fold b1. by rewrite Hd.
Qed.

Lemma call_update_bars_runs_dry (b : State R) u :
  Inv (roles b) → continue_backtest (roles b) = true →
  fst (call_update_bars update_bars b) = Val u →
  Inv (roles (snd (call_update_bars update_bars b)))
  ∧ (left (roles (snd (call_update_bars update_bars b))) < left (roles b))%nat.
Proof.
  intros Hi Hc.
  unfold call_update_bars, observe, run_method, bind, gets, modify. simpl.
  pose proof (source_runs_dry (roles b)) as Hn.
  destruct (update_bars (roles b)) as [[r ro] new]. simpl in *.
  intros ->. by apply (Hn u).
Qed.

(** The outer loop ends too. *)
Lemma run_backtest_total k (b : State R) :
  (left (roles b) < k)%nat → Inv (roles b) →
  ∃ fuel res b', ∀ n, (fuel ≤ n)%nat → run' n b = Some (res, b').
Proof.
  revert b. induction k as [|k IH]; intros b Hk Hi; [lia |].
  destruct (continue_backtest (roles b)) eqn:Hc.
  2:{ exists 1%nat, (Val tt), b. intros [|n] Hn; [lia |]. simpl.
      by rewrite Hc. }
  destruct (call_update_bars update_bars b) as [[u|x] b1] eqn:Hu.
  2:{ exists 1%nat, (Raise x), b1. intros [|n] Hn; [lia |]. simpl.
      by rewrite Hc, Hu. }
  destruct (call_update_bars_runs_dry b u Hi Hc) as [Hi1 Hl1];
    [by rewrite Hu |].
  rewrite Hu in Hi1, Hl1. simpl in Hi1, Hl1.
  destruct (handle_events_total b1 Hi1) as (f1 & res1 & b2 & Hrun1 & Hres1).
  destruct res1 as [[]|x].
  - destruct (Hres1 eq_refl) as [Hi2 Hl2].
    destruct (IH b2) as (f2 & res & b' & Hrun2); [lia | done |].
    exists (S (Nat.max f1 f2)), res, b'.
    intros [|n] Hn; [lia |]. simpl.
    rewrite Hc, Hu, (Hrun1 n) by lia. apply Hrun2. lia.
  - exists (S f1), (Raise x), b2.
    intros [|n] Hn; [lia |]. simpl.
    by rewrite Hc, Hu, (Hrun1 n) by lia.
Qed.

End Discipline.

(** C2: the run of the orchestrator.  Let the bar source run dry and
    the roles follow the pipeline (a Market event gives rise to Signals,
    Orders or Fills only, a Signal to Orders or Fills, an Order to Fills,
    a Fill to nothing), on the role states [Inv] describes.  Then the run
    ends, with enough fuel and with any more.  Its trace is what the
    roles did: each recorded call was made on the role state the calls
    before it had left, enqueued the recorded events, and the run stopped
    at the first call that raised, with that exception.  At every call of
    [update_bars()] the queue was empty, every event enqueued before it
    (by the bar source, or by a role while it handled another event) had
    been popped, in the order enqueued, and each popped event had been
    passed to the roles of its tag and to no other: Market to the
    strategy's [calculate_signals] and the portfolio's [update_timeindex],
    Signal to [update_signal], Order to [execute_order], Fill to
    [update_fill].  When no role raised the same holds at the end of the
    run, which the exhausted bar source ended. *)
Theorem run_backtest_drains (Inv : R → Prop) (left : R → nat) (r0 : R) :
  Inv r0 →
  runs_dry Inv left continue_backtest update_bars →
  follows Inv left 3 calculate_signals →
  follows Inv left 3 update_timeindex →
  follows Inv left 2 update_signal →
  follows Inv left 1 execute_order →
  follows Inv left 0 update_fill →
  ∃ fuel res b,
    (∀ n, (fuel ≤ n)%nat → run' n (init r0) = Some (res, b))
    ∧ explains' r0 (trace b) res (roles b)
    ∧ boundaries_ok (trace b)
    ∧ (res = Val tt →
       events b = []
       ∧ puts_of (trace b) = gets_of (trace b)
       ∧ calls_of (trace b) = concat (route <$> gets_of (trace b))
       ∧ continue_backtest (roles b) = false).
Proof.
  intros Hi H0 H1 H2 H3 H4 H5.
  destruct (run_backtest_total Inv left H0 H1 H2 H3 H4 H5
              (S (left r0)) (init r0)) as (fuel & res & b & Hrun);
    [simpl; lia | done |].
  exists fuel, res, b. split; [exact Hrun |].
  specialize (Hrun fuel (Nat.le_refl fuel)).
  split.
  { apply (run_backtest_explains r0 fuel (init r0) res b Hrun).
    apply explains_nil. }
  destruct (run_backtest_effect fuel (init r0) res b Hrun) as [Hb Hres].
  - split; reflexivity.
  - reflexivity.
  - intros i q Hq. done.
  - split; [exact Hb |].
    intros Hv. destruct (Hres Hv) as ([Hp Hc] & Hq & Hcont).
    rewrite Hq, app_nil_r in Hp. done.
Qed.

End BacktestFacts.

(** ** An untracked symbol *)

Section LookupErrorFacts.

Import Backtest BacktestSpec.

Context {R : Type}.
Variable continue_backtest : R → bool.
Variable update_bars : Method R.
Variables calculate_signals update_timeindex update_signal execute_order
          update_fill : Event → Method R.

(** The orchestrator catches [queue.Empty] and nothing else: when the
    strategy raises while it handles the Market event of a timestep, the
    run ends there with that exception. *)
Lemma run_ends_with_strategy_error fuel (b : State R) r1 r2 new x :
  continue_backtest (roles b) = true → events b = [] →
  update_bars (roles b) = (Val tt, r1, [MarketEvent]) →
  calculate_signals MarketEvent r1 = (Raise x, r2, new) →
  _run_backtest continue_backtest update_bars calculate_signals
    update_timeindex update_signal execute_order update_fill
    (S (S fuel)) b
  = Some (Raise x,
          mkState r2 new (signals b) (orders b) (fills b)
            (trace b
             ++ [ObsUpdateBars []; ObsPut MarketEvent; ObsGet MarketEvent;
                 ObsCall "calculate_signals" MarketEvent]
             ++ (ObsPut <$> new))).
Proof.
  intros Hc Hq Hu Hs. simpl. rewrite Hc.
  unfold call_update_bars, observe, run_method, bind, gets, modify. simpl.
  rewrite Hu, Hq. simpl.
  unfold dispatch, _handle_market_event, call, observe, run_method, bind,
    modify.
  simpl. rewrite Hs. simpl.
  by rewrite <- !app_assoc.
Qed.

(** C9, as the code has it: for a symbol that is not tracked, each of
    the five lookups raises [KeyError], a [LookupError], to its caller;
    the bar source, and with it the exhaustion flag, and the queue are
    left as they were.  What becomes of the error is the caller's
    business, and the orchestrator has no handler for it: when the
    strategy lets it through while handling the Market event of a
    timestep, the run ends with it, [update_timeindex] is not called and
    no further bar is read. *)
Theorem untracked_symbol_lookup_error (w : Data.World) s field N
    fuel (b : State R) r1 r2 new :
  DataSpec.reachable w → s ∉ Data.symbol_list (Data.bars w) →
  continue_backtest (roles b) = true → events b = [] →
  update_bars (roles b) = (Val tt, r1, [MarketEvent]) →
  calculate_signals MarketEvent r1 = (Raise KeyError, r2, new) →
  is_LookupError KeyError = true
  ∧ DataSpec.fails_untracked (Data.get_latest_bar s) w
  ∧ DataSpec.fails_untracked (Data.get_latest_bars s N) w
  ∧ DataSpec.fails_untracked (Data.get_latest_bar_value s field) w
  ∧ DataSpec.fails_untracked (Data.get_latest_bars_values s field N) w
  ∧ DataSpec.fails_untracked (Data.get_latest_bar_datetime s) w
  ∧ _run_backtest continue_backtest update_bars calculate_signals
      update_timeindex update_signal execute_order update_fill
      (S (S fuel)) b
    = Some (Raise KeyError,
            mkState r2 new (signals b) (orders b) (fills b)
              (trace b
               ++ [ObsUpdateBars []; ObsPut MarketEvent; ObsGet MarketEvent;
                   ObsCall "calculate_signals" MarketEvent]
               ++ (ObsPut <$> new))).
Proof.
  intros Hw Hs Hc Hq Hu Hx.
  destruct (lookups_fail_untracked w s field N Hw Hs)
    as (H1 & H2 & H3 & H4 & H5 & H6).
  split_and!; try done.
  by apply (run_ends_with_strategy_error fuel b r1 r2 new).
Qed.

End LookupErrorFacts.


(** * Further properties *)

(** ** The bar source: histories, replay and lookups *)

Section DataMoreFacts.

Import Data DataSpec DataMore.

Lemma loop_body_extends k w s hist :
  latest_symbol_data (bars w) !! s = Some hist →
  ∃ ext, latest_symbol_data (bars (snd (loop_body k w))) !! s = Some (hist ++ ext).
Proof.
  intros Hs. unfold loop_body, try_except_else, next_get_new_bar.
  destruct (symbol_data (bars w) !! k) as [[|b rest]|]; simpl.
  - exists []. by rewrite app_nil_r.
  - unfold append_latest. simpl.
    destruct (latest_symbol_data (bars w) !! k) as [l|] eqn:Hk; simpl.
    + destruct (decide (k = s)) as [->|Hne].
      * rewrite lookup_insert_eq. exists [b]. congruence.
      * rewrite lookup_insert_ne by done. exists []. by rewrite app_nil_r.
    + exists []. by rewrite app_nil_r.
  - exists []. by rewrite app_nil_r.
Qed.

Lemma for_each_extends l w s hist :
  latest_symbol_data (bars w) !! s = Some hist →
  ∃ ext, latest_symbol_data (bars (snd (for_each l loop_body w))) !! s
         = Some (hist ++ ext).
Proof.
  revert w hist. induction l as [|k l IH]; intros w hist Hs; simpl.
  - exists []. by rewrite app_nil_r.
  - unfold bind. destruct (loop_body_extends k w s hist Hs) as [e1 H1].
    destruct (loop_body k w) as [[u|x] w1]; simpl in *.
    + destruct (IH w1 _ H1) as [e2 H2]. exists (e1 ++ e2).
      by rewrite app_assoc.
    + by exists e1.
Qed.

Lemma update_bars_extends w s hist :
  latest_symbol_data (bars w) !! s = Some hist →
  ∃ ext, latest_symbol_data (bars (snd (update_bars w))) !! s = Some (hist ++ ext).
Proof.
  intros Hs. unfold update_bars, bind, gets. cbv beta.
  change (fun s => try_except_else (next_get_new_bar s) StopIteration _ _)
    with loop_body.
  destruct (for_each_extends (symbol_list (bars w)) w s hist Hs) as [ext He].
  destruct (for_each _ loop_body w) as [[u|x] w1]; simpl in *; by exists ext.
Qed.

(** X1: observed bars are never revised.  In any state whatever, and
    through any number of calls of [update_bars()], the history a symbol
    already has stays as a prefix of its later history. *)
Theorem history_never_revised n w s hist :
  latest_symbol_data (bars w) !! s = Some hist →
  ∃ ext,
    latest_symbol_data (bars (update_bars_n n w)) !! s = Some (hist ++ ext).
Proof.
  intros Hs. induction n as [|n [ext IH]]; simpl.
  - exists []. by rewrite app_nil_r.
  - destruct (update_bars_extends _ s _ IH) as [e2 H2].
    exists (ext ++ e2). by rewrite app_assoc.
Qed.

Lemma fresh_n_reachable n ev out symbols idx frame :
  reachable (update_bars_n n (fresh ev out symbols idx frame)).
Proof.
  induction n as [|n IH]; simpl; [apply reach_init | by apply reach_update].
Qed.

Lemma fresh_n_symbol_list n ev out symbols idx frame :
  symbol_list (bars (update_bars_n n (fresh ev out symbols idx frame))) = symbols.
Proof.
  induction n as [|n IH]; simpl; [done |].
  rewrite update_bars_reachable by apply fresh_n_reachable. simpl.
  by rewrite foldl_advance_symbol_list.
Qed.

Lemma fresh_lookups ev out symbols idx frame s :
  s ∈ symbols →
  symbol_data (bars (fresh ev out symbols idx frame)) !! s
  = Some (rows_of idx frame s)
  ∧ latest_symbol_data (bars (fresh ev out symbols idx frame)) !! s = Some [].
Proof.
  intros Hs. unfold fresh, init, rows_of. simpl.
  rewrite (foldl_insert_lookup (fun s => (fun t => (t, frame s t)) <$> idx)).
  rewrite (foldl_insert_lookup (fun _ => [])).
  by rewrite !decide_True.
Qed.

Lemma fresh_n_lookups n ev out symbols idx frame s :
  NoDup symbols → s ∈ symbols →
  latest_symbol_data (bars (update_bars_n n (fresh ev out symbols idx frame))) !! s
  = Some (take n (rows_of idx frame s))
  ∧ symbol_data (bars (update_bars_n n (fresh ev out symbols idx frame))) !! s
    = Some (drop n (rows_of idx frame s)).
Proof.
  intros Hnd Hs. induction n as [|n [IHl IHd]].
  - destruct (fresh_lookups ev out symbols idx frame s Hs) as [Hd Hl].
    rewrite take_0, drop_0. split; [exact Hl | exact Hd].
  - change (update_bars_n (S n) ?w) with (snd (update_bars (update_bars_n n w))).
    set (w := update_bars_n n (fresh ev out symbols idx frame)) in *.
    assert (Hl : symbol_list (bars w) = symbols) by apply fresh_n_symbol_list.
    rewrite update_bars_reachable by apply fresh_n_reachable. simpl.
    rewrite Hl.
    destruct (foldl_advance_in symbols (bars w) s Hnd Hs) as [-> ->].
    destruct (advance_self s (bars w)) as [-> ->].
    rewrite IHl, IHd.
    destruct (rows_of idx frame s !! n) as [b|] eqn:Hn.
    + rewrite (drop_S _ _ _ Hn). by rewrite (take_S_r _ _ _ Hn).
    + apply lookup_ge_None in Hn.
      rewrite !drop_ge, !take_ge by lia. done.
Qed.

(** X2: replay.  After [n] calls of [update_bars()] on a freshly built
    source with distinct symbols, the observed history of every tracked
    symbol is exactly the first [n] rows of its reindexed frame, in order
    (all of them once [n] exceeds their number), and its stream holds the
    rows that remain. *)
Theorem history_is_frame_prefix n ev out symbols idx frame s :
  NoDup symbols → s ∈ symbols →
  latest_symbol_data (bars (update_bars_n n (fresh ev out symbols idx frame))) !! s
  = Some (take n (rows_of idx frame s))
  ∧ symbol_data (bars (update_bars_n n (fresh ev out symbols idx frame))) !! s
    = Some (drop n (rows_of idx frame s)).
Proof. apply fresh_n_lookups. Qed.

(** X3: the length of a run.  On a freshly built source with at least one
    symbol, all distinct, [continue_backtest] is still true after [n]
    calls of [update_bars()] exactly when [n] does not exceed the number of
    labels of the shared index, and the [n] calls have enqueued [n]
    MarketEvents: the call that finds the data exhausted is call number
    [len + 1], and it too enqueues a MarketEvent. *)
Theorem run_length n ev out symbols idx frame :
  NoDup symbols → symbols ≠ [] →
  continue_backtest (bars (update_bars_n n (fresh ev out symbols idx frame)))
  = bool_decide (n ≤ length idx)%nat
  ∧ events (update_bars_n n (fresh ev out symbols idx frame))
    = ev ++ replicate n MarketEvent.
Proof.
  intros Hnd Hne. induction n as [|n [IHc IHe]].
  - split; [| simpl; by rewrite app_nil_r].
    symmetry. apply bool_decide_eq_true_2. lia.
  - change (update_bars_n (S n) ?w) with (snd (update_bars (update_bars_n n w))).
    pose proof (fun s => fresh_n_lookups n ev out symbols idx frame s Hnd)
      as Hpre.
    set (w := update_bars_n n (fresh ev out symbols idx frame)) in *.
    assert (Hl : symbol_list (bars w) = symbols) by apply fresh_n_symbol_list.
    rewrite update_bars_reachable by apply fresh_n_reachable. simpl.
    rewrite Hl, IHe. split.
    2:{ rewrite <- app_assoc. f_equal.
        change [MarketEvent] with (replicate 1 MarketEvent).
        rewrite <- replicate_add.
        replace (n + 1)%nat with (S n) by lia. reflexivity. }
    rewrite foldl_advance_continue, IHc by done.
    assert (Hex : ∀ s, s ∈ symbols →
              exhausted (bars w) s = bool_decide (length idx ≤ n)%nat).
    { intros s Hs. unfold exhausted. destruct (Hpre s Hs) as [_ ->].
      destruct (drop n (rows_of idx frame s)) as [|b rest] eqn:Hd.
      - symmetry. apply bool_decide_eq_true_2.
        apply (f_equal length) in Hd. rewrite length_drop in Hd.
        unfold rows_of in Hd. rewrite length_fmap in Hd. simpl in Hd. lia.
      - symmetry. apply bool_decide_eq_false_2.
        apply (f_equal length) in Hd. rewrite length_drop in Hd.
        unfold rows_of in Hd. rewrite length_fmap in Hd. simpl in Hd. lia. }
    destruct symbols as [|s0 rest]; [done |]. simpl.
    rewrite (Hex s0) by (by left).
    destruct (decide (n < length idx)%nat) as [Hlt|Hge].
    + rewrite (bool_decide_eq_false_2 (length idx ≤ n)%nat) by lia. simpl.
      rewrite (bool_decide_eq_true_2 (n ≤ length idx)%nat) by lia.
      rewrite (bool_decide_eq_true_2 (S n ≤ length idx)%nat) by lia. simpl.
      apply forallb_forall. intros s Hin%list_elem_of_In.
      rewrite (Hex s) by (by right).
      by rewrite (bool_decide_eq_false_2 (length idx ≤ n)%nat) by lia.
    + rewrite (bool_decide_eq_true_2 (length idx ≤ n)%nat) by lia. simpl.
      rewrite (bool_decide_eq_false_2 (S n ≤ length idx)%nat) by lia.
      by rewrite andb_false_r.
Qed.

Lemma index_last_snoc {A} (l : list A) (x : A) : index (-1) (l ++ [x]) = Val x.
Proof.
  unfold index. rewrite length_app. simpl.
  destruct (Z.ltb_spec (-1 + Z.of_nat (length l + 1)) 0) as [?|_]; [lia |].
  replace (Z.to_nat (-1 + Z.of_nat (length l + 1))) with (length l) by lia.
  by rewrite list_lookup_middle.
Qed.

Lemma slice_last_snoc {A} (l : list A) (x : A) : slice_from (-1) (l ++ [x]) = [x].
Proof.
  change (slice_from (-1) (l ++ [x])) with (slice_from (Z.opp 1) (l ++ [x])).
  rewrite slice_from_last by lia.
  transitivity (drop (length l) (l ++ [x])); [| by rewrite drop_app_length].
  f_equal. rewrite length_app. change (length [x]) with 1%nat. lia.
Qed.

(** X4: the lookups after a step.  When [update_bars()] takes the bar
    [b] from the series of a tracked symbol, the latest-bar lookups made
    next all answer with [b]: [get_latest_bar] returns it,
    [get_latest_bar_datetime] its label, [get_latest_bar_value] its
    columns, and [get_latest_bars] with [N = 1] the list holding it
    alone. *)
Theorem latest_bar_after_step w s b rest field v :
  reachable w → NoDup (symbol_list (bars w)) → s ∈ symbol_list (bars w) →
  symbol_data (bars w) !! s = Some (b :: rest) →
  getattr (snd b) field = Val v →
  get_latest_bar s (snd (update_bars w)) = (Val b, snd (update_bars w))
  ∧ get_latest_bar_datetime s (snd (update_bars w))
    = (Val (fst b), snd (update_bars w))
  ∧ get_latest_bar_value s field (snd (update_bars w))
    = (Val (Some v), snd (update_bars w))
  ∧ get_latest_bars s 1 (snd (update_bars w)) = (Val [b], snd (update_bars w)).
Proof.
  intros Hw Hnd Hs Hd Hv.
  destruct (tracked_Some w s Hw Hs) as [hist Hh].
  assert (Hl : latest_symbol_data (bars (snd (update_bars w))) !! s
               = Some (hist ++ [b])).
  { rewrite update_bars_reachable by done. simpl.
    destruct (foldl_advance_in _ (bars w) s Hnd Hs) as [_ ->].
    destruct (advance_self s (bars w)) as [_ ->].
    by rewrite Hd, Hh. }
  set (w' := snd (update_bars w)) in *.
  split_and!.
  - unfold get_latest_bar, try_except_else. cbv beta. rewrite Hl.
    by rewrite index_last_snoc.
  - unfold get_latest_bar_datetime, bind, gets. cbv beta. rewrite Hl.
    by rewrite index_last_snoc.
  - unfold get_latest_bar_value, bind, gets. cbv beta. rewrite Hl.
    destruct (hist ++ [b]) as [|x l] eqn:E.
    { by destruct hist. }
    rewrite <- E, index_last_snoc, Hv. done.
  - unfold get_latest_bars, bind, gets. cbv beta. rewrite Hl.
    destruct (hist ++ [b]) as [|x l] eqn:E.
    { by destruct hist. }
    rewrite <- E, slice_last_snoc. done.
Qed.

(** X5: a window that is not positive.  For a tracked symbol,
    [get_latest_bars] with [N = 0] returns the whole observed history, not
    an empty list, and with [N < 0] the history without its first [-N]
    bars: the slice [bars_list[-N:]] counts from the front then. *)
Theorem get_latest_bars_nonpositive w s N hist :
  latest_symbol_data (bars w) !! s = Some hist → (N ≤ 0)%Z →
  get_latest_bars s N w = (Val (drop (Z.to_nat (- N)) hist), w).
Proof.
  intros Hh HN. rewrite (get_latest_bars_tracked s N w hist Hh).
  destruct hist as [|b l]; [by rewrite drop_nil |].
  unfold slice_from.
  destruct (Z.ltb_spec (- N) 0) as [?|_]; [lia |].
  destruct (decide (- N ≤ Z.of_nat (length (b :: l)))%Z) as [Hle|Hgt].
  - by rewrite Z.min_l.
  - rewrite Z.min_r by lia. rewrite Nat2Z.id.
    rewrite !drop_ge; [done | lia | done].
Qed.

(** X6: the lookups only read.  In any state, for any symbol and
    arguments, none of the five lookups changes the bar source (histories,
    streams, exhaustion flag) or the event queue, whether it returns or
    raises. *)
Theorem lookups_read_only w s field N :
  (bars (snd (get_latest_bar s w)) = bars w
   ∧ events (snd (get_latest_bar s w)) = events w)
  ∧ (bars (snd (get_latest_bars s N w)) = bars w
     ∧ events (snd (get_latest_bars s N w)) = events w)
  ∧ (bars (snd (get_latest_bar_value s field w)) = bars w
     ∧ events (snd (get_latest_bar_value s field w)) = events w)
  ∧ (bars (snd (get_latest_bars_values s field N w)) = bars w
     ∧ events (snd (get_latest_bars_values s field N w)) = events w)
  ∧ (bars (snd (get_latest_bar_datetime s w)) = bars w
     ∧ events (snd (get_latest_bar_datetime s w)) = events w).
Proof.
  split_and!.
  - unfold get_latest_bar, try_except_else. cbv beta.
    by destruct (latest_symbol_data (bars w) !! s).
  - unfold get_latest_bar, try_except_else. cbv beta.
    by destruct (latest_symbol_data (bars w) !! s).
  - unfold get_latest_bars, bind, gets. cbv beta.
    by destruct (latest_symbol_data (bars w) !! s) as [[|b l]|].
  - unfold get_latest_bars, bind, gets. cbv beta.
    by destruct (latest_symbol_data (bars w) !! s) as [[|b l]|].
  - unfold get_latest_bar_value, bind, gets. cbv beta.
    destruct (latest_symbol_data (bars w) !! s) as [[|b l]|]; simpl; try done.
    by destruct (index (-1) (b :: l)) as [x|]; [destruct (getattr _ _) |].
  - unfold get_latest_bar_value, bind, gets. cbv beta.
    destruct (latest_symbol_data (bars w) !! s) as [[|b l]|]; simpl; try done.
    by destruct (index (-1) (b :: l)) as [x|]; [destruct (getattr _ _) |].
  - apply get_latest_bars_values_frame.
  - apply get_latest_bars_values_frame.
  - by rewrite get_latest_bar_datetime_frame.
  - by rewrite get_latest_bar_datetime_frame.
Qed.

End DataMoreFacts.

(** ** The crossover strategy: what it emits and when *)

Section MacMoreFacts.

Import Data Mac MacSpec MacMore.

Lemma calculate_signals_symbol_cases k w :
  (events (dw (snd (calculate_signals_symbol k w))) = events (dw w)
   ∧ bought (self (snd (calculate_signals_symbol k w))) = bought (self w))
  ∨ (∃ v, bought (self w) !! k = Some v ∧ truthy v = false
          ∧ events (dw (snd (calculate_signals_symbol k w)))
            = events (dw w) ++ [SignalEvent 1 k (utcnow w) "LONG" 1]
          ∧ bought (self (snd (calculate_signals_symbol k w)))
            = <[k := VBool true]> (bought (self w)))
  ∨ (∃ v, bought (self w) !! k = Some v ∧ truthy v = true
          ∧ events (dw (snd (calculate_signals_symbol k w)))
            = events (dw w) ++ [SignalEvent 1 k (utcnow w) "EXIT" 1]
          ∧ bought (self (snd (calculate_signals_symbol k w)))
            = <[k := VBool false]> (bought (self w))).
Proof.
  unfold calculate_signals_symbol, bind, gets, data, lift. cbv beta.
  pose proof (get_latest_bars_values_frame k "adj_close"
                (long_window (self w)) (dw w)) as [F1 F2].
  destruct (get_latest_bars_values k "adj_close" _ (dw w)) as [[a|e] d1];
    simpl in *; [|by left].
  pose proof (get_latest_bar_datetime_frame k d1) as F3.
  destruct (get_latest_bar_datetime k d1) as [[date|e] d2];
    simpl in *; subst d2; [|by left].
  unfold get_bought, emit, put_bought, modify, bind, gets, data, lift, ret.
  simpl.
  destruct (0 <? length a)%nat; simpl; [|by left].
  destruct (gt _ _) eqn:Hgt; simpl.
  - destruct (bought (self w) !! k) as [v|] eqn:Hv; simpl; [|by left].
    destruct (truthy v) eqn:Ht; simpl.
    + unfold lt. rewrite (gt_asym _ _ Hgt). simpl. by left.
    + right. left. exists v. by rewrite F2.
  - destruct (lt _ _); simpl; [|by left].
    destruct (bought (self w) !! k) as [v|] eqn:Hv; simpl; [|by left].
    destruct (truthy v) eqn:Ht; simpl; [|by left].
    right. right. exists v. by rewrite F2.
Qed.

(** X7: signals follow the flag.  Handling one symbol at a Market
    event, in any state, does one of three things: it enqueues nothing and
    leaves the flags alone; or the symbol's flag tested false, exactly one
    LONG signal is enqueued and the flag becomes [True]; or the flag tested
    true, exactly one EXIT signal is enqueued and the flag becomes [False].
    So a LONG is never sent for a symbol whose flag tests true, nor an EXIT
    for one whose flag tests false. *)
Theorem mac_signal_follows_flag k w :
  (events (dw (snd (calculate_signals_symbol k w))) = events (dw w)
   ∧ bought (self (snd (calculate_signals_symbol k w))) = bought (self w))
  ∨ (∃ v, bought (self w) !! k = Some v ∧ truthy v = false
          ∧ events (dw (snd (calculate_signals_symbol k w)))
            = events (dw w) ++ [SignalEvent 1 k (utcnow w) "LONG" 1]
          ∧ bought (self (snd (calculate_signals_symbol k w)))
            = <[k := VBool true]> (bought (self w)))
  ∨ (∃ v, bought (self w) !! k = Some v ∧ truthy v = true
          ∧ events (dw (snd (calculate_signals_symbol k w)))
            = events (dw w) ++ [SignalEvent 1 k (utcnow w) "EXIT" 1]
          ∧ bought (self (snd (calculate_signals_symbol k w)))
            = <[k := VBool false]> (bought (self w))).
Proof. apply calculate_signals_symbol_cases. Qed.

Lemma calculate_signals_symbol_clock k w :
  utcnow (snd (calculate_signals_symbol k w)) = utcnow w
  ∧ clock (snd (calculate_signals_symbol k w)) = clock w.
Proof.
  unfold calculate_signals_symbol, bind, gets, data, lift. cbv beta.
  destruct (get_latest_bars_values k "adj_close" _ (dw w)) as [[a|e] d1];
    simpl; [|done].
  destruct (get_latest_bar_datetime k d1) as [[date|e] d2]; simpl; [|done].
  unfold get_bought, emit, put_bought, modify, bind, gets, data, lift, ret.
  simpl. repeat case_match; simplify_eq/=; done.
Qed.

(** A reading taken after a turn of the loop is a later reading of the
    clock the turn started with. *)
Lemma loop_turn_eq k w :
  loop_turn k w
  = match calculate_signals_symbol k w with
    | (Val _, w1) => (Val tt, elapse w1)
    | (Raise x, w1) => (Raise x, w1)
    end.
Proof. reflexivity. Qed.

(** A reading taken after a turn of the loop is a later reading of the
    clock the turn started with. *)
Lemma reading_after_turn k w w1 u t :
  calculate_signals_symbol k w = (Val u, w1) →
  reading (elapse w1) t → reading w t.
Proof.
  intros Hk. destruct (calculate_signals_symbol_clock k w) as [_ Hc].
  rewrite Hk in Hc. simpl in Hc.
  intros [-> | [i ->]]; simpl; right; rewrite Hc; eauto.
Qed.

Lemma for_each_symbol_signals (l all : list string) w :
  symbol_list w = all → (∀ k, k ∈ l → k ∈ all) →
  ∃ new,
    events (dw (snd (for_each l loop_turn w))) = events (dw w) ++ new
    ∧ Forall (crossover_signal all w) new
    ∧ bars (dw (snd (for_each l loop_turn w))) = bars (dw w).
Proof.
  revert w. induction l as [|k l IH]; intros w Hall Hsub; simpl.
  - exists []. by rewrite app_nil_r.
  - unfold bind. rewrite loop_turn_eq.
    destruct (calculate_signals_symbol_frame k w) as (Fb & _ & _ & Fe).
    assert (Hk : k ∈ all) by (apply Hsub; by left).
    assert (H1 : ∃ n1, events (dw (snd (calculate_signals_symbol k w)))
                       = events (dw w) ++ n1
                       ∧ Forall (crossover_signal all w) n1).
    { destruct (calculate_signals_symbol_cases k w)
        as [[He _] | [(v & _ & _ & He & _) | (v & _ & _ & He & _)]].
      - exists []. by rewrite app_nil_r.
      - eexists. split; [exact He |]. constructor; [|done].
        exists k, (utcnow w), "LONG". unfold reading. auto.
      - eexists. split; [exact He |]. constructor; [|done].
        exists k, (utcnow w), "EXIT". unfold reading. auto. }
    destruct H1 as (n1 & He1 & Hf1).
    destruct (calculate_signals_symbol k w) as [[u|x] w1] eqn:Hkw;
      simpl in *.
    + destruct (IH (elapse w1)) as (n2 & He2 & Hf2 & Hb2).
      * unfold symbol_list in *. simpl. by rewrite Fb.
      * intros j Hj. apply Hsub. by right.
      * exists (n1 ++ n2). simpl in He2, Hb2.
        rewrite He2, He1, Hb2, Fb, <- app_assoc.
        split; [done |]. split; [|done].
        apply Forall_app_2; [done |].
        eapply Forall_impl; [exact Hf2 |].
        intros e (j & t & dir & -> & Hj & Ht & Hdir).
        exists j, t, dir. split_and!; try done.
        by eapply reading_after_turn.
    + exists n1. done.
Qed.

Lemma calculate_signals_appends event w :
  ∃ new,
    events (dw (snd (calculate_signals event w))) = events (dw w) ++ new
    ∧ Forall (crossover_signal (symbol_list w) w) new
    ∧ bars (dw (snd (calculate_signals event w))) = bars (dw w).
Proof.
  unfold calculate_signals.
  destruct (String.eqb (event_type event) "MARKET").
  - unfold bind, gets. cbv beta. by apply for_each_symbol_signals.
  - exists []. by rewrite app_nil_r.
Qed.

(** X8: all the crossover strategy ever enqueues.  [calculate_signals],
    for any event and state, only appends to the queue, and what it appends
    are LONG or EXIT signals with strategy id 1 and strength 1 for symbols
    of the tracked list, each stamped with a reading the clock gave during
    the call; it never sends SHORT, an order or a fill, and it leaves the
    bar source as it was. *)
Theorem mac_only_long_exit_signals event w :
  ∃ new,
    events (dw (snd (calculate_signals event w))) = events (dw w) ++ new
    ∧ Forall (crossover_signal (symbol_list w) w) new
    ∧ bars (dw (snd (calculate_signals event w))) = bars (dw w).
Proof. apply calculate_signals_appends. Qed.

(** X9: a cross of the short mean below the long one.  If the symbol's
    flag tests true, exactly one EXIT signal is enqueued and the flag
    becomes [False]; if it tests false, nothing happens.  The flag of a
    fresh strategy is the string ['OUT'], which tests true: the first cross
    below sends an EXIT although nothing was ever bought. *)
Theorem mac_cross_below s w a date v :
  get_latest_bars_values s "adj_close" (long_window (self w)) (dw w)
  = (Val a, dw w) →
  get_latest_bar_datetime s (dw w) = (Val date, dw w) →
  a ≠ [] →
  lt (short_sma w a) (long_sma w a) = true →
  bought (self w) !! s = Some v →
  if truthy v
  then ∃ w',
      calculate_signals_symbol s w = (Val tt, w')
      ∧ events (dw w') = events (dw w) ++ [SignalEvent 1 s (utcnow w) "EXIT" 1]
      ∧ bought (self w') = <[s := VBool false]> (bought (self w))
  else calculate_signals_symbol s w = (Val tt, w).
Proof.
  intros Ea Ed Hne Hlt Hv.
  unfold short_sma, long_sma in Hlt.
  pose proof (gt_asym _ _ Hlt) as Hgt.
  destruct w as [[sw lw bt] d now later]. simpl in *.
  unfold calculate_signals_symbol, bind, gets, data, lift. cbv beta.
  simpl. rewrite Ea. simpl. rewrite Ed. simpl.
  destruct a as [|x a]; [done |]. simpl (0 <? _)%nat. cbv iota.
  rewrite Hgt. simpl. rewrite Hlt.
  unfold get_bought, bind, ret. simpl. rewrite Hv.
  destruct (truthy v); simpl.
  - eexists. split; [reflexivity |]. simpl. done.
  - reflexivity.
Qed.

(** X11: a Market event before the first bar.  If the first tracked
    symbol has no observed bar yet, [calculate_signals] raises
    [IndexError], from the lookup of the bar's date made before the test on
    the array's size, and changes nothing. *)
Theorem mac_market_event_before_first_bar w s rest :
  symbol_list w = s :: rest →
  latest_symbol_data (bars (dw w)) !! s = Some [] →
  calculate_signals MarketEvent w = (Raise IndexError, w).
Proof.
  intros Hl Hs. unfold calculate_signals. simpl.
  unfold bind, gets. cbv beta. rewrite Hl. simpl.
  unfold bind, loop_turn, bind, calculate_signals_symbol, bind, gets, data,
    lift.
  cbv beta.
  unfold get_latest_bars_values, try_except_else, get_latest_bars,
    get_latest_bar_datetime, bind, gets. cbv beta.
  rewrite Hs. simpl. rewrite Hs. simpl.
  destruct w as [st [ev out h] now]; reflexivity.
Qed.

End MacMoreFacts.

(** ** The pairs strategy: windows, missing legs and flags *)

Section PairsMoreFacts.

Import IntradayMr PairsSpec.

Variable ols : list Q → list Q → Q.
Variable zs : Q → list Q → list Q → Q.

(** X12: a window that is not full.  When the bar source returns fewer
    than [ols_window] closes for either leg, a Market event changes
    nothing: no fit is made, no signal is enqueued, no flag moves. *)
Theorem pairs_window_not_full w y x :
  Data.get_latest_bars_values (fst (pair (self w))) "close"
    (ols_window (self w)) (dw w) = (Val y, dw w) →
  Data.get_latest_bars_values (snd (pair (self w))) "close"
    (ols_window (self w)) (dw w) = (Val x, dw w) →
  (Z.of_nat (length y) < ols_window (self w)
   ∨ Z.of_nat (length x) < ols_window (self w))%Z →
  calculate_signals ols zs MarketEvent w = (Val tt, w).
Proof.
  intros Ey Ex Hshort.
  unfold calculate_signals, calculate_signals_for_pairs. simpl.
  unfold bind, gets, data, lift. cbv beta.
  rewrite Ey. simpl. rewrite Ex. simpl.
  replace ((ols_window (self w) <=? Z.of_nat (length y))%Z
           && (ols_window (self w) <=? Z.of_nat (length x))%Z) with false.
  - destruct w as [st d]; reflexivity.
  - symmetry. apply andb_false_iff.
    destruct Hshort; [left | right]; apply Z.leb_gt; lia.
Qed.

(** X13: a leg that is not tracked.  If either symbol of the pair is
    missing from the bar source's symbol list, a Market event raises
    [KeyError] out of [calculate_signals]; the strategy, the queue and the
    bar source are as before. *)
Theorem pairs_untracked_leg w :
  DataSpec.reachable (dw w) →
  (fst (pair (self w)) ∉ Data.symbol_list (Data.bars (dw w))
   ∨ snd (pair (self w)) ∉ Data.symbol_list (Data.bars (dw w))) →
  ∃ w',
    calculate_signals ols zs MarketEvent w = (Raise KeyError, w')
    ∧ self w' = self w
    ∧ Data.events (dw w') = Data.events (dw w)
    ∧ Data.bars (dw w') = Data.bars (dw w).
Proof.
  intros Hr Hun.
  unfold calculate_signals, calculate_signals_for_pairs. simpl.
  unfold bind, gets, data, lift. cbv beta.
  destruct (decide (fst (pair (self w)) ∈ Data.symbol_list (Data.bars (dw w))))
    as [Hin|Hout].
  - destruct Hun as [Hun|Hun]; [done |].
    destruct (tracked_Some (dw w) _ Hr Hin) as [hist Hh].
    destruct (getattr_column "close") as [f Hf]; [decide_by_compute |].
    assert (E1 : ∃ y, Data.get_latest_bars_values (fst (pair (self w))) "close"
                        (ols_window (self w)) (dw w) = (Val y, dw w)).
    { unfold Data.get_latest_bars_values, try_except_else.
      rewrite (get_latest_bars_tracked _ _ _ hist Hh).
      rewrite (getattr_all_column "close" f) by done. eauto. }
    destruct E1 as [y ->]. simpl.
    pose proof (untracked_None (dw w) _ Hr Hun) as Hn.
    unfold Data.get_latest_bars_values, try_except_else, Data.get_latest_bars,
      bind, gets. cbv beta. rewrite Hn. simpl.
    eexists. split; [reflexivity | done].
  - pose proof (untracked_None (dw w) _ Hr Hout) as Hn.
    unfold Data.get_latest_bars_values, try_except_else, Data.get_latest_bars,
      bind, gets. cbv beta. rewrite Hn. simpl.
    eexists. split; [reflexivity | done].
Qed.

(** X14: long and short at once.  Nothing makes the strategy leave one
    side before it enters the other: with both windows full, while it is
    long and not short, a z-score at or above [zscore_high] (and outside
    the exit band) enqueues SHORT on [y] and LONG on [x] and sets the short
    flag, and the long flag stays set. *)
Theorem pairs_long_and_short w y x :
  full_windows w y x →
  long_market (self w) = true → short_market (self w) = false →
  (zscore_high (self w) <= zs (ols y x) y x)%Q →
  ¬ (Qabs (zs (ols y x) y x) <= zscore_low (self w))%Q →
  ∃ w',
    calculate_signals ols zs MarketEvent w = (Val tt, w')
    ∧ emitted w w' (pair_signals w "SHORT" "LONG" (Qabs (ols y x)))
    ∧ flags w' = (true, true).
Proof.
  intros (Ey & Ex & Ly & Lx) Hlong Hshort Hhi Hlo.
  apply Qleb_le in Hhi.
  assert (Hlo' : Qleb (Qabs (zs (ols y x) y x)) (zscore_low (self w)) = false).
  { destruct (Qleb (Qabs _) _) eqn:E; [|done].
    exfalso. apply Hlo. exact (proj1 (Qleb_le _ _) E). }
  unfold emitted, flags, pair_signals.
  unfold calculate_signals, calculate_signals_for_pairs. simpl.
  unfold bind, gets, data, lift. cbv beta.
  rewrite Ey. simpl. rewrite Ex. simpl.
  rewrite (proj2 (Z.leb_le _ _) Ly), (proj2 (Z.leb_le _ _) Lx). simpl.
  unfold calculate_xy_signals, get_hedge_ratio, bind, gets, modify, ret.
  simpl. rewrite Hlong, Hshort, Hhi, Hlo', andb_false_r. simpl.
  eexists. split; [reflexivity |]. simpl.
  rewrite Hlong. split; [by rewrite <- app_assoc | done].
Qed.

(** X15: flat and inside the band.  With both windows full, while the
    strategy is neither long nor short and [|z| < zscore_high], a Market
    event refits the hedge ratio and does nothing else: no signal, both
    flags still false. *)
Theorem pairs_flat_inside_band w y x :
  full_windows w y x →
  long_market (self w) = false → short_market (self w) = false →
  (Qabs (zs (ols y x) y x) < zscore_high (self w))%Q →
  ∃ w',
    calculate_signals ols zs MarketEvent w = (Val tt, w')
    ∧ emitted w w' []
    ∧ flags w' = (false, false)
    ∧ hedge_ratio (self w') = Some (ols y x).
Proof.
  intros (Ey & Ex & Ly & Lx) Hlong Hshort Hin.
  set (z := zs (ols y x) y x) in *.
  pose proof (proj1 (Qabs_Qle_condition z (Qabs z)) (Qle_refl _)) as [Hb1 Hb2].
  assert (H1 : Qleb z (- zscore_high (self w)) = false).
  { apply not_true_is_false. intros E.
    pose proof (proj1 (Qleb_le _ _) E) as E'. lra. }
  assert (H3 : Qleb (zscore_high (self w)) z = false).
  { apply not_true_is_false. intros E.
    pose proof (proj1 (Qleb_le _ _) E) as E'. lra. }
  unfold emitted, flags.
  unfold calculate_signals, calculate_signals_for_pairs. simpl.
  unfold bind, gets, data, lift. cbv beta.
  rewrite Ey. simpl. rewrite Ex. simpl.
  rewrite (proj2 (Z.leb_le _ _) Ly), (proj2 (Z.leb_le _ _) Lx). simpl.
  unfold calculate_xy_signals, get_hedge_ratio, bind, gets, modify, ret.
  simpl. fold z. rewrite Hlong, Hshort, H1, H3, !andb_false_r. simpl.
  eexists. split; [reflexivity |]. simpl.
  rewrite Hlong, Hshort. by rewrite app_nil_r.
Qed.

End PairsMoreFacts.

(** ** The orchestrator: the counts it reports *)

Section BacktestMoreFacts.

Import Backtest BacktestSpec BacktestMore.

Context {R : Type}.
Variable continue_backtest : R → bool.
Variable update_bars : Method R.
Variables calculate_signals update_timeindex update_signal execute_order
          update_fill : Event → Method R.

Local Abbreviation dispatch2 :=
  (dispatch calculate_signals update_timeindex update_signal execute_order
            update_fill).
Local Abbreviation handle_events2 :=
  (handle_events calculate_signals update_timeindex update_signal
                 execute_order update_fill).
Local Abbreviation run2 :=
  (_run_backtest continue_backtest update_bars calculate_signals
                 update_timeindex update_signal execute_order update_fill).

Lemma call_counters name (m : Event → Method R) e (b : State R) :
  signals (snd (call name m e b)) = signals b
  ∧ orders (snd (call name m e b)) = orders b
  ∧ fills (snd (call name m e b)) = fills b
  ∧ gets_of (trace (snd (call name m e b))) = gets_of (trace b).
Proof.
  destruct (call_effect name m e b) as (new & Ht & _). rewrite Ht.
  rewrite gets_of_app. change (ObsCall name e :: (ObsPut <$> new))
    with ([ObsCall name e] ++ (ObsPut <$> new)).
  rewrite gets_of_app, gets_of_puts. simpl. rewrite app_nil_r.
  unfold call, observe, run_method, bind, modify. simpl.
  destruct (m e (roles b)) as [[r ro] n1]. simpl. done.
Qed.

(** Handling a popped event bumps the counter of its tag, and only that
    one, before the role is called. *)
Lemma dispatch_counters e (b : State R) :
  signals (snd (dispatch2 e b))
  = (signals b + if String.eqb (event_type e) "SIGNAL" then 1 else 0)%nat
  ∧ orders (snd (dispatch2 e b))
    = (orders b + if String.eqb (event_type e) "ORDER" then 1 else 0)%nat
  ∧ fills (snd (dispatch2 e b))
    = (fills b + if String.eqb (event_type e) "FILL" then 1 else 0)%nat
  ∧ gets_of (trace (snd (dispatch2 e b))) = gets_of (trace b).
Proof.
  destruct e as [| si sy dt ty st | sy ot qu di | ti sy ex qu di fc];
    unfold dispatch; simpl.
  - unfold _handle_market_event, bind.
    destruct (call_counters "calculate_signals" calculate_signals MarketEvent b)
      as (S1 & O1 & F1 & G1).
    destruct (call _ calculate_signals MarketEvent b) as [[u1|x1] b1];
      simpl in *; [| rewrite S1, O1, F1, G1; split_and!; (lia || done)].
    destruct (call_counters "update_timeindex" update_timeindex MarketEvent b1)
      as (S2 & O2 & F2 & G2).
    destruct (call _ update_timeindex MarketEvent b1) as [[u2|x2] b2];
      simpl in *; rewrite S2, O2, F2, G2, S1, O1, F1, G1;
      split_and!; (lia || done).
  - unfold _handle_signal_event, bind, modify. simpl.
    match goal with |- context [call _ _ _ ?b0] => set (b1 := b0) end.
    destruct (call_counters "update_signal" update_signal
                (SignalEvent si sy dt ty st) b1) as (S1 & O1 & F1 & G1).
    rewrite S1, O1, F1, G1. subst b1. simpl. split_and!; (lia || done).
  - unfold _handle_order_event, bind, modify. simpl.
    match goal with |- context [call _ _ _ ?b0] => set (b1 := b0) end.
    destruct (call_counters "execute_order" execute_order
                (OrderEvent sy ot qu di) b1) as (S1 & O1 & F1 & G1).
    rewrite S1, O1, F1, G1. subst b1. simpl. split_and!; (lia || done).
  - unfold _handle_fill_event, bind, modify. simpl.
    match goal with |- context [call _ _ _ ?b0] => set (b1 := b0) end.
    destruct (call_counters "update_fill" update_fill
                (FillEvent ti sy ex qu di fc) b1) as (S1 & O1 & F1 & G1).
    rewrite S1, O1, F1, G1. subst b1. simpl. split_and!; (lia || done).
Qed.

Lemma handled_snoc tag t e :
  handled tag (t ++ [ObsGet e])
  = (handled tag t + if String.eqb (event_type e) tag then 1 else 0)%nat.
Proof.
  unfold handled. rewrite gets_of_app. simpl.
  rewrite List.filter_app, length_app. simpl.
  by destruct (String.eqb (event_type e) tag).
Qed.

Lemma handle_events_counted fuel (b : State R) res b' :
  handle_events2 fuel b = Some (res, b') → counted b → counted b'.
Proof.
  revert b. induction fuel as [|fuel IH]; intros b Hrun Hc; simpl in Hrun;
    [done |].
  unfold get in Hrun. destruct (events b) as [|e q] eqn:Hq.
  - by injection Hrun as <- <-.
  - simpl in Hrun.
    match type of Hrun with context [dispatch2 e ?b0] => set (b1 := b0) in * end.
    assert (Hc2 : counted (snd (dispatch2 e b1))).
    { destruct (dispatch_counters e b1) as (S1 & O1 & F1 & G1).
      destruct Hc as (Hs & Ho & Hf).
      unfold counted, handled. rewrite S1, O1, F1, G1. subst b1. simpl.
      fold (handled "SIGNAL" (trace b ++ [ObsGet e]))
           (handled "ORDER" (trace b ++ [ObsGet e]))
           (handled "FILL" (trace b ++ [ObsGet e])).
      rewrite !handled_snoc, Hs, Ho, Hf. done. }
    destruct (dispatch2 e b1) as [[u|x] b2]; simpl in *.
    + by apply (IH b2).
    + by injection Hrun as <- <-.
Qed.

Lemma call_update_bars_counted (b : State R) :
  counted b → counted (snd (call_update_bars update_bars b)).
Proof.
  intros (Hs & Ho & Hf).
  unfold call_update_bars, observe, run_method, bind, gets, modify. simpl.
  destruct (update_bars (roles b)) as [[r ro] new]. simpl.
  unfold counted, handled. simpl.
  rewrite !gets_of_app, gets_of_puts. simpl. rewrite !app_nil_r.
  done.
Qed.

Lemma run_backtest_counted fuel (b : State R) res b' :
  run2 fuel b = Some (res, b') → counted b → counted b'.
Proof.
  revert b. induction fuel as [|fuel IH]; intros b Hrun Hc; simpl in Hrun;
    [done |].
  destruct (continue_backtest (roles b)).
  2:{ by injection Hrun as <- <-. }
  pose proof (call_update_bars_counted b Hc) as Hc1.
  destruct (call_update_bars update_bars b) as [[u|x] b1]; simpl in *.
  2:{ by injection Hrun as <- <-. }
  destruct (handle_events2 fuel b1) as [[[u2|x2] b2]|] eqn:Hh; [| |done].
  - apply (IH b2 Hrun). by apply (handle_events_counted fuel b1 _ b2 Hh).
  - injection Hrun as <- <-. by apply (handle_events_counted fuel b1 _ b2 Hh).
Qed.

(** X16: the reported counts.  However a run ends, by the exhaustion of
    the data or by an exception of a role, the [signals], [orders] and
    [fills] counters the orchestrator prints are exactly the numbers of
    Signal, Order and Fill events it popped from the queue; Market events
    are not counted. *)
Theorem reported_counts fuel (r0 : R) res b :
  run2 fuel (init r0) = Some (res, b) →
  signals b = handled "SIGNAL" (trace b)
  ∧ orders b = handled "ORDER" (trace b)
  ∧ fills b = handled "FILL" (trace b).
Proof.
  intros Hrun. apply (run_backtest_counted fuel (init r0) res b Hrun).
  split_and!; reflexivity.
Qed.

End BacktestMoreFacts.

(** ** The broker-backed execution handler: its helpers *)

Section IbMoreFacts.

Import IbExecution IbSpec IbMore.

Variable str : Msg → string.

(** X17: the reply handler of the class as written.  Whatever the
    message, the handler leaves its own fields (the fill dictionary and
    the order id among them) and the event queue as they were; it either
    raises [AttributeError] before printing, or returns after one call of
    [print], whose text is "Server Response: ", the type name, ", ", the
    text of the message and a line feed. *)
Theorem reply_handler_as_written msg w :
  self (snd (_reply_handler str (class_attrs str) msg w)) = self w
  ∧ events (snd (_reply_handler str (class_attrs str) msg w)) = events w
  ∧ ((fst (_reply_handler str (class_attrs str) msg w) = Raise AttributeError
      ∧ stdout (snd (_reply_handler str (class_attrs str) msg w)) = stdout w)
     ∨ (fst (_reply_handler str (class_attrs str) msg w) = Val tt
        ∧ stdout (snd (_reply_handler str (class_attrs str) msg w))
          = stdout w ++ ["Server Response: " +:+ typeName msg +:+ ", "
                         +:+ str msg +:+ newline])).
Proof.
  unfold _reply_handler, bind, gets. cbv beta.
  destruct msg as [id c o | id st q p | n]; simpl.
  - destruct (bool_decide (id = order_id (self w))
              && negb (bool_decide (is_Some (fill_dict (self w) !! id))));
      simpl; split_and!; auto.
  - destruct (String.eqb st "Filled"
              && match fill_dict (self w) !! id with
                 | Some fd => negb (filled fd)
                 | None => false
                 end); simpl; split_and!; auto.
  - split_and!; auto.
Qed.

(** X18: an entry and its fill.  [create_fill_dict_entry] on an
    [openOrder] message followed by [create_fill] on a status message of
    the same order id returns, and enqueues one FillEvent that carries the
    symbol and exchange of the contract, the action of the order, and the
    filled quantity and average price of the status message; the entry is
    then marked filled and the entries of other ids are as before. *)
Theorem entry_then_fill id c o st q p w :
  ∃ w',
    (create_fill_dict_entry (OpenOrderMsg id c o);;
     create_fill (OrderStatusMsg id st q p))%py w = (Val tt, w')
    ∧ events w'
      = events w ++ [FillEvent (utcnow w) (m_symbol c) (m_exchange c) q
                               (m_action o) p]
    ∧ fill_dict (self w') !! id
      = Some (mkEntry (m_symbol c) (m_exchange c) (m_action o) true)
    ∧ (∀ j, j ≠ id → fill_dict (self w') !! j = fill_dict (self w) !! j)
    ∧ order_id (self w') = order_id (self w).
Proof.
  unfold create_fill_dict_entry, create_fill, bind, gets, modify, put.
  cbv beta. simpl. rewrite lookup_insert_eq. simpl.
  eexists. split; [reflexivity |]. simpl.
  split_and!; [done | by rewrite lookup_insert_eq | | done].
  intros j Hj. by rewrite !lookup_insert_ne.
Qed.

(** X19: [create_fill] itself does not look at the [filled] flag.  For an
    order id with an entry, filled or not, it returns, enqueues one
    FillEvent built from the entry and the message, marks the entry
    filled, and changes nothing else. *)
Theorem create_fill_present id st q p fd w :
  fill_dict (self w) !! id = Some fd →
  ∃ w',
    create_fill (OrderStatusMsg id st q p) w = (Val tt, w')
    ∧ events w'
      = events w ++ [FillEvent (utcnow w) (symbol fd) (exchange fd) q
                               (direction fd) p]
    ∧ fill_dict (self w')
      = <[id := mkEntry (symbol fd) (exchange fd) (direction fd) true]>
          (fill_dict (self w))
    ∧ order_id (self w') = order_id (self w)
    ∧ stdout w' = stdout w.
Proof.
  intros Hfd. unfold create_fill, bind, gets, modify, put. cbv beta.
  simpl. rewrite Hfd. simpl. eexists. split; [reflexivity |]. simpl. done.
Qed.

(** X20: [create_fill] for an order id that has no entry.  Whatever
    the message that carries the id, an order status or an [openOrder]
    reply, the lookup [self.fill_dict[msg.orderId]] comes first:
    [create_fill] raises [KeyError] and changes nothing. *)
Theorem create_fill_unknown_order msg id w :
  orderId_of msg = Some id →
  fill_dict (self w) !! id = None →
  create_fill msg w = (Raise KeyError, w).
Proof.
  intros Hid Hfd. unfold create_fill, bind, gets. cbv beta.
  rewrite Hid. simpl. by rewrite Hfd.
Qed.

(** X21: what [execute_order] can do, whatever the two constructor names
    are bound to.  It never touches the event queue or the fill
    dictionary; it submits at most one order, under the current order id,
    and the order id advances by one exactly when an order was
    submitted. *)
Theorem execute_order_effect contract_attr order_attr event s :
  ∃ new,
    placed (snd (execute_order contract_attr order_attr event s))
    = placed s ++ new
    ∧ (length new ≤ 1)%nat
    ∧ Forall (fun o => o.1.1 = order_id (self (world s))) new
    ∧ order_id (self (world (snd (execute_order contract_attr order_attr
                                    event s))))
      = (order_id (self (world s)) + Z.of_nat (length new))%Z
    ∧ events (world (snd (execute_order contract_attr order_attr event s)))
      = events (world s)
    ∧ fill_dict (self (world (snd (execute_order contract_attr order_attr
                                     event s))))
      = fill_dict (self (world s)).
Proof.
  destruct event as [| si sy dt ty st | sy ot qu di | ti sy ex qu di fc];
    simpl;
    try (exists []; rewrite app_nil_r, Z.add_0_r; split_and!;
         [done | simpl; lia | constructor | done | done | done]).
  unfold bind, gets. cbv beta.
  destruct (contract_attr "_create_contract") as [mk_contract|]; simpl.
  2:{ exists []. rewrite app_nil_r, Z.add_0_r.
      split_and!; [done | simpl; lia | constructor | done | done | done]. }
  destruct (order_attr "_create_order") as [mk_order|]; simpl.
  2:{ exists []. rewrite app_nil_r, Z.add_0_r.
      split_and!; [done | simpl; lia | constructor | done | done | done]. }
  eexists [_]. split_and!; [reflexivity | simpl; lia | | done | done | done].
  by repeat constructor.
Qed.

(** X22: [execute_order] of the class as written.  The class binds
    [create_contract] and [create_order], the method calls
    [_create_contract]: an Order event raises [AttributeError] before
    anything is submitted, any other event is ignored, and in both cases
    nothing changes. *)
Theorem execute_order_as_written event s :
  execute_order class_contract_attr class_order_attr event s
  = (if String.eqb (event_type event) "ORDER" then Raise AttributeError
     else Val tt, s).
Proof. by destruct event. Qed.

End IbMoreFacts.

(** ** The further properties on concrete inputs *)

Section MoreDataExamples.

Import Data DataSpec DataMore Examples.

Lemma history_never_revised_witness :
  ∃ ext,
    latest_symbol_data (bars (update_bars_n 1 (snd (update_bars w_two))))
      !! "AAPL"
    = Some ([(1%Z, rising "AAPL" 1)] ++ ext).
Proof.
  apply (history_never_revised 1 (snd (update_bars w_two)) "AAPL"
           [(1%Z, rising "AAPL" 1)]).
  vm_compute. reflexivity.
Defined.

Lemma history_is_frame_prefix_witness :
  latest_symbol_data
    (bars (update_bars_n 1 (fresh [] [] ["AREX"; "WLL"] [1; 2]%Z pairs_frame)))
    !! "WLL"
  = Some (take 1 (rows_of [1; 2]%Z pairs_frame "WLL"))
  ∧ symbol_data
      (bars (update_bars_n 1 (fresh [] [] ["AREX"; "WLL"] [1; 2]%Z pairs_frame)))
      !! "WLL"
    = Some (drop 1 (rows_of [1; 2]%Z pairs_frame "WLL")).
Proof.
  apply (history_is_frame_prefix 1 [] [] ["AREX"; "WLL"] [1; 2]%Z pairs_frame
           "WLL"); decide_by_compute.
Defined.

Lemma run_length_witness :
  continue_backtest
    (bars (update_bars_n 3 (fresh [] [] ["AAPL"] [1; 2]%Z rising)))
  = bool_decide (3 ≤ length [1; 2]%Z)%nat
  ∧ events (update_bars_n 3 (fresh [] [] ["AAPL"] [1; 2]%Z rising))
    = [] ++ replicate 3 MarketEvent.
Proof.
  apply (run_length 3 [] [] ["AAPL"] [1; 2]%Z rising).
  - decide_by_compute.
  - discriminate.
Defined.

Lemma latest_bar_after_step_witness :
  get_latest_bar "AAPL" (snd (update_bars w_two))
  = (Val (1%Z, rising "AAPL" 1), snd (update_bars w_two))
  ∧ get_latest_bar_datetime "AAPL" (snd (update_bars w_two))
    = (Val (fst (1%Z, rising "AAPL" 1)), snd (update_bars w_two))
  ∧ get_latest_bar_value "AAPL" "close" (snd (update_bars w_two))
    = (Val (Some (inject_Z 1)), snd (update_bars w_two))
  ∧ get_latest_bars "AAPL" 1 (snd (update_bars w_two))
    = (Val [(1%Z, rising "AAPL" 1)], snd (update_bars w_two)).
Proof.
  apply (latest_bar_after_step w_two "AAPL" (1%Z, rising "AAPL" 1)
           [(2%Z, rising "AAPL" 2)] "close" (inject_Z 1)).
  - apply reach_init.
  - decide_by_compute.
  - decide_by_compute.
  - vm_compute. reflexivity.
  - reflexivity.
Defined.

Lemma get_latest_bars_nonpositive_witness :
  get_latest_bars "AAPL" (-1) w_end
  = (Val (drop (Z.to_nat (- -1))
            [(1%Z, rising "AAPL" 1); (2%Z, rising "AAPL" 2)]), w_end).
Proof.
  apply (get_latest_bars_nonpositive w_end "AAPL" (-1)
           [(1%Z, rising "AAPL" 1); (2%Z, rising "AAPL" 2)]).
  - vm_compute. reflexivity.
  - lia.
Defined.

End MoreDataExamples.

Section MoreMacExamples.

Import Data Mac MacSpec Examples MoreExamples.

Lemma mac_cross_below_witness :
  ∃ w',
    calculate_signals_symbol "AAPL" mac_second_bar = (Val tt, w')
    ∧ events (dw w')
      = events (dw mac_second_bar)
        ++ [SignalEvent 1 "AAPL" (utcnow mac_second_bar) "EXIT" 1]
    ∧ bought (self w')
      = <["AAPL" := VBool false]> (bought (self mac_second_bar)).
Proof.
  refine (mac_cross_below "AAPL" mac_second_bar [2; 1]%Q 2%Z (VStr "OUT")
            _ _ _ _ _).
  - vm_compute. reflexivity.
  - vm_compute. reflexivity.
  - discriminate.
  - vm_compute. reflexivity.
  - vm_compute. reflexivity.
Defined.

Lemma mac_cross_above_witness :
  ∃ w',
    calculate_signals_symbol "AAPL" mac_third_bar = (Val tt, w')
    ∧ events (dw w')
      = events (dw mac_third_bar)
        ++ [SignalEvent 1 "AAPL" (utcnow mac_third_bar) "LONG" 1]
    ∧ bought (self w')
      = <["AAPL" := VBool true]> (bought (self mac_third_bar)).
Proof.
  refine (mac_cross_above "AAPL" mac_third_bar [2; 1; 3]%Q 3%Z (VBool false)
            _ _ _ _ _).
  - vm_compute. reflexivity.
  - vm_compute. reflexivity.
  - discriminate.
  - vm_compute. reflexivity.
  - vm_compute. reflexivity.
Defined.

Lemma mac_market_event_before_first_bar_witness :
  calculate_signals MarketEvent mac_no_bar = (Raise IndexError, mac_no_bar).
Proof.
  apply (mac_market_event_before_first_bar mac_no_bar "AAPL" []).
  - vm_compute. reflexivity.
  - vm_compute. reflexivity.
Defined.

End MoreMacExamples.

Section MorePairsExamples.

Import IntradayMr PairsSpec Numerics Examples MoreExamples.

Lemma pairs_window_not_full_witness :
  calculate_signals ols_fit zscore MarketEvent (pairs_at_bar 2)
  = (Val tt, pairs_at_bar 2).
Proof.
  apply (pairs_window_not_full ols_fit zscore (pairs_at_bar 2)
           [34%Q; 34%Q] [1%Q; 1%Q]).
  - vm_compute. reflexivity.
  - vm_compute. reflexivity.
  - left. vm_compute. reflexivity.
Defined.

Lemma pairs_untracked_leg_witness :
  ∃ w',
    calculate_signals ols_fit zscore MarketEvent pairs_elsewhere
    = (Raise KeyError, w')
    ∧ self w' = self pairs_elsewhere
    ∧ Data.events (dw w') = Data.events (dw pairs_elsewhere)
    ∧ Data.bars (dw w') = Data.bars (dw pairs_elsewhere).
Proof.
  apply (pairs_untracked_leg ols_fit zscore pairs_elsewhere).
  - apply DataSpec.reach_update, DataSpec.reach_init.
  - left. decide_by_compute.
Defined.

(** On the rally the slope is 18 and the last residual lies four
    standard deviations above the mean. *)
Example numerics_of_rally :
  (ols_fit y_rally x17 == 18)%Q
  ∧ zscore_last (ols_fit y_rally x17) y_rally x17 = Some 4%Q.
Proof. split; vm_compute; reflexivity. Qed.

Lemma pairs_long_and_short_witness :
  ∃ w',
    calculate_signals ols_fit zscore MarketEvent pairs_long_in_rally
    = (Val tt, w')
    ∧ emitted pairs_long_in_rally w'
        (pair_signals pairs_long_in_rally "SHORT" "LONG"
           (Qabs (ols_fit y_rally x17)))
    ∧ flags w' = (true, true).
Proof.
  apply (pairs_long_and_short ols_fit zscore pairs_long_in_rally
           y_rally x17).
  - split_and!; first [vm_compute; reflexivity | vm_compute; discriminate].
  - vm_compute. reflexivity.
  - vm_compute. reflexivity.
  - vm_compute. discriminate.
  - vm_compute. intros H. apply H. reflexivity.
Defined.

Lemma pairs_flat_inside_band_witness :
  ∃ w',
    calculate_signals ols_fit zscore MarketEvent pairs_calm
    = (Val tt, w')
    ∧ emitted pairs_calm w' []
    ∧ flags w' = (false, false)
    ∧ hedge_ratio (self w') = Some (ols_fit y18 x17).
Proof.
  apply (pairs_flat_inside_band ols_fit zscore pairs_calm y18 x17).
  - split_and!; first [vm_compute; reflexivity | vm_compute; discriminate].
  - vm_compute. reflexivity.
  - vm_compute. reflexivity.
  - vm_compute. reflexivity.
Defined.

End MorePairsExamples.

Section MoreBacktestExamples.

Import Backtest BacktestMore Examples.

Lemma reported_counts_witness :
  ∃ res b,
    demo_run 10 = Some (res, b)
    ∧ signals b = handled "SIGNAL" (trace b)
    ∧ orders b = handled "ORDER" (trace b)
    ∧ fills b = handled "FILL" (trace b).
Proof.
  eexists _, _. split; [vm_compute; reflexivity |].
  apply (reported_counts demo_continue demo_update_bars
           demo_calculate_signals demo_update_timeindex demo_update_signal
           demo_execute_order demo_update_fill 10 (mac_world 1 10 w_dip)
           (Val tt)).
  vm_compute. reflexivity.
Defined.

End MoreBacktestExamples.

Section MoreIbExamples.

Import IbExecution IbSpec IbMore Examples.

Lemma create_fill_present_witness :
  ∃ w',
    create_fill (OrderStatusMsg 1 "Filled" 100 (5 # 2)) ib_pending
    = (Val tt, w')
    ∧ events w'
      = events ib_pending
        ++ [FillEvent (utcnow ib_pending)
              (symbol (mkEntry "AAPL" "SMART" "BUY" false))
              (exchange (mkEntry "AAPL" "SMART" "BUY" false)) 100
              (direction (mkEntry "AAPL" "SMART" "BUY" false)) (5 # 2)]
    ∧ fill_dict (self w')
      = <[1%Z := mkEntry (symbol (mkEntry "AAPL" "SMART" "BUY" false))
                   (exchange (mkEntry "AAPL" "SMART" "BUY" false))
                   (direction (mkEntry "AAPL" "SMART" "BUY" false)) true]>
          (fill_dict (self ib_pending))
    ∧ order_id (self w') = order_id (self ib_pending)
    ∧ stdout w' = stdout ib_pending.
Proof.
  apply (create_fill_present 1 "Filled" 100 (5 # 2)
           (mkEntry "AAPL" "SMART" "BUY" false) ib_pending).
  vm_compute. reflexivity.
Defined.

Lemma create_fill_unknown_order_witness :
  create_fill msg_open ib_fresh = (Raise KeyError, ib_fresh).
Proof.
  apply (create_fill_unknown_order msg_open 1 ib_fresh).
  - reflexivity.
  - vm_compute. reflexivity.
Defined.

End MoreIbExamples.

(** ** The crossover strategy: from construction *)

Section MacFreshFacts.

Import Data Mac MacSpec MacMore.

(** X23: the flags at construction.  [_calculate_initial_bought] gives
    every tracked symbol, and no other key, the string ['OUT']. *)
Theorem initial_bought_lookup bars n N s :
  bought (init bars n N) !! s
  = if decide (s ∈ Data.symbol_list bars) then Some (VStr "OUT") else None.
Proof.
  unfold init, _calculate_initial_bought. simpl.
  rewrite (foldl_insert_lookup (fun _ => VStr "OUT")).
  by destruct (decide _).
Qed.

Lemma for_each_symbol_out (l : list string) w :
  NoDup l →
  (∀ k, k ∈ l → bought (self w) !! k = Some (VStr "OUT")) →
  ∃ new,
    events (dw (snd (for_each l loop_turn w))) = events (dw w) ++ new
    ∧ Forall (exit_signal l w) new.
Proof.
  revert w. induction l as [|k l IH]; intros w Hnd Hout; simpl.
  - exists []. by rewrite app_nil_r.
  - apply NoDup_cons in Hnd as [Hk Hnd]. unfold bind.
    rewrite loop_turn_eq.
    assert (H1 : ∃ n1,
               events (dw (snd (calculate_signals_symbol k w)))
               = events (dw w) ++ n1
               ∧ Forall (exit_signal (k :: l) w) n1
               ∧ ∀ j, j ∈ l →
                   bought (self (snd (calculate_signals_symbol k w))) !! j
                   = Some (VStr "OUT")).
    { destruct (calculate_signals_symbol_cases k w)
        as [[He Hb] | [(v & Hv & Ht & _) | (v & _ & _ & He & Hb)]].
      - exists []. rewrite app_nil_r, Hb. split_and!; [done | done |].
        intros j Hj. apply Hout. by right.
      - rewrite (Hout k) in Hv by (by left). by simplify_eq.
      - eexists. split; [exact He |]. split.
        + constructor; [|done]. exists k, (utcnow w).
          split_and!; [done | by left | by left].
        + intros j Hj. rewrite Hb, lookup_insert_ne by (by intros ->).
          apply Hout. by right. }
    destruct H1 as (n1 & He1 & Hf1 & Hb1).
    destruct (calculate_signals_symbol k w) as [[u|x] w1] eqn:Hkw;
      simpl in *.
    + destruct (IH (elapse w1) Hnd Hb1) as (n2 & He2 & Hf2).
      exists (n1 ++ n2). simpl in He2.
      rewrite He2, He1, <- app_assoc. split; [done |].
      apply Forall_app_2; [done |].
      eapply Forall_impl; [exact Hf2 |].
      intros e (j & t & -> & Hj & Ht). exists j, t.
      split_and!; [done | by right | by eapply reading_after_turn].
    + exists n1. done.
Qed.

(** X24: no LONG from a fresh strategy.  Whatever the bars and the
    clock, the first event handled by a freshly constructed strategy over
    distinct symbols only appends EXIT signals to the queue, each stamped
    with a reading the clock gave during the call: the flags set at
    construction test true, so a cross of the short mean above the long
    one sends nothing and a cross below sends an EXIT. *)
Theorem mac_fresh_only_exits short long d now later event :
  NoDup (Data.symbol_list (bars d)) →
  ∃ new,
    events (dw (snd (calculate_signals event (fresh short long d now later))))
    = events d ++ new
    ∧ Forall (exit_signal (Data.symbol_list (bars d))
                (fresh short long d now later)) new.
Proof.
  intros Hnd. unfold calculate_signals.
  destruct (String.eqb (event_type event) "MARKET").
  - unfold bind, gets. cbv beta.
    apply (for_each_symbol_out (Data.symbol_list (bars d))
             (fresh short long d now later) Hnd).
    intros k Hk. simpl.
    unfold _calculate_initial_bought.
    rewrite (foldl_insert_lookup (fun _ => VStr "OUT")).
    by rewrite decide_True.
  - exists []. by rewrite app_nil_r.
Qed.

End MacFreshFacts.

Section MacFreshExamples.

Import Data DataSpec Mac MacSpec MacMore Examples MoreExamples.

Lemma mac_fresh_only_exits_witness :
  ∃ new,
    events (dw (snd (calculate_signals MarketEvent
                       (fresh 1 10 w_two_symbols 5
                          (fun i => (6 + Z.of_nat i)%Z)))))
    = events w_two_symbols ++ new
    ∧ Forall (exit_signal (Data.symbol_list (bars w_two_symbols))
                (fresh 1 10 w_two_symbols 5 (fun i => (6 + Z.of_nat i)%Z)))
        new.
Proof.
  apply (mac_fresh_only_exits 1 10 w_two_symbols 5
           (fun i => (6 + Z.of_nat i)%Z) MarketEvent).
  decide_by_compute.
Defined.

(** Each pass of the loop reads the clock for itself: with two symbols
    crossing below in one call, the two EXIT signals carry the readings
    5 and 6. *)
Example mac_passes_read_the_clock :
  events (dw (snd (calculate_signals MarketEvent mac_two_symbols)))
  = events w_two_symbols
    ++ [SignalEvent 1 "AAPL" 5 "EXIT" 1; SignalEvent 1 "MSFT" 6 "EXIT" 1].
Proof. vm_compute. reflexivity. Qed.

End MacFreshExamples.

(** ** The run of the crossover strategy *)

Section DataLeftFacts.

Import Data DataSpec DataMore.

(** On a bar source in a run, with distinct symbols and at least one, a
    call of [update_bars()] made while the flag holds uses up a row or the
    flag. *)
Lemma update_bars_uses_data w :
  reachable w → NoDup (symbol_list (bars w)) → symbol_list (bars w) ≠ [] →
  continue_backtest (bars w) = true →
  (data_left (bars (snd (update_bars w))) < data_left (bars w))%nat.
Proof.
  intros Hw Hnd Hne Hc.
  rewrite update_bars_reachable by done. simpl.
  unfold data_left. rewrite foldl_advance_symbol_list, Hc.
  rewrite foldl_advance_continue, Hc by done. simpl.
  destruct (reachable_inv w Hw) as [Ht Hst].
  destruct (symbol_list (bars w)) as [|s rest] eqn:Hl; [done |].
  assert (Hs : s ∈ s :: rest) by (by left).
  destruct (foldl_advance_in _ (bars w) s Hnd Hs) as [-> _].
  destruct (advance_self s (bars w)) as [-> _].
  assert (Hs' : s ∈ symbol_list (bars w)) by (rewrite Hl; by left).
  destruct (Hst s Hs') as [rows Hr].
  destruct (proj1 (Ht s) Hs') as [hist Hh].
  simpl. unfold exhausted at 1. rewrite Hr, Hh.
  destruct rows as [|b tl]; simpl.
  - lia.
  - destruct (forallb _ rest); simpl; lia.
Qed.

End DataLeftFacts.

Section DemoFacts.

Import DataSpec DataMore MacMore Backtest BacktestSpec Examples MoreExamples.

Lemma demo_update_bars_runs_dry :
  runs_dry demo_inv demo_left demo_continue demo_update_bars.
Proof.
  intros r u (Hr & Hnd & Hne) Hc _.
  unfold demo_continue in Hc.
  unfold demo_inv, demo_left, demo_update_bars, outbox, clear_outbox,
    Mac.data, lift.
  simpl.
  set (w0 := Data.mkWorld [] (Data.stdout (Mac.dw r)) (Data.bars (Mac.dw r))).
  assert (H0 : reachable w0) by (by apply reach_io).
  pose proof (update_bars_uses_data w0 H0 Hnd Hne Hc) as Hlt.
  pose proof (reach_update w0 H0) as H1.
  rewrite (update_bars_reachable w0 H0) in *. simpl in *.
  rewrite foldl_advance_symbol_list.
  split_and!; [| done | done | done].
  apply (reach_io _ [] (Data.stdout (Mac.dw r))) in H1. exact H1.
Qed.

Lemma crossover_signal_rank l w e : crossover_signal l w e → rank e < 3.
Proof. intros (k & t & dir & -> & _). simpl. lia. Qed.

Lemma demo_calculate_signals_follows :
  follows demo_inv demo_left 3 demo_calculate_signals.
Proof.
  intros e r u (Hr & Hnd & Hne) _.
  unfold demo_inv, demo_left, demo_calculate_signals, outbox.
  destruct (calculate_signals_appends e (clear_outbox r))
    as (new & He & Hf & Hb).
  destruct (Mac.calculate_signals e (clear_outbox r)) as [res r'].
  simpl in *. rewrite Hb.
  split_and!; [| done | done | done |].
  - by apply reach_io.
  - rewrite He. simpl.
    eapply Forall_impl; [exact Hf |]. intros ev. apply crossover_signal_rank.
Qed.

Lemma demo_update_timeindex_follows :
  follows demo_inv demo_left 3 demo_update_timeindex.
Proof. intros e r u Hi _. simpl. split_and!; [done | done | constructor]. Qed.

Lemma demo_update_signal_follows :
  follows demo_inv demo_left 2 demo_update_signal.
Proof.
  intros e r u Hi _. simpl. split_and!; [done | done |].
  destruct e; repeat constructor.
Qed.

Lemma demo_execute_order_follows :
  follows demo_inv demo_left 1 demo_execute_order.
Proof.
  intros e r u Hi _. simpl. split_and!; [done | done |].
  destruct e; repeat constructor.
Qed.

Lemma demo_update_fill_follows :
  follows demo_inv demo_left 0 demo_update_fill.
Proof. intros e r u Hi _. simpl. split_and!; [done | done | constructor]. Qed.

Lemma demo_inv_start : demo_inv (mac_world 1 10 w_dip).
Proof.
  split_and!; [apply reach_init | decide_by_compute | discriminate].
Qed.

End DemoFacts.

Section BacktestExamples.

Import Backtest BacktestSpec Examples MoreExamples.

Lemma run_backtest_drains_witness :
  ∃ fuel res b,
    (∀ n, (fuel ≤ n)%nat →
       _run_backtest demo_continue demo_update_bars demo_calculate_signals
         demo_update_timeindex demo_update_signal demo_execute_order
         demo_update_fill n (init (mac_world 1 10 w_dip))
       = Some (res, b))
    ∧ explains demo_update_bars demo_calculate_signals demo_update_timeindex
        demo_update_signal demo_execute_order demo_update_fill
        (mac_world 1 10 w_dip) (trace b) res (roles b)
    ∧ boundaries_ok (trace b)
    ∧ (res = Val tt →
       events b = []
       ∧ puts_of (trace b) = gets_of (trace b)
       ∧ calls_of (trace b) = concat (route <$> gets_of (trace b))
       ∧ demo_continue (roles b) = false).
Proof.
  apply (run_backtest_drains demo_continue demo_update_bars
           demo_calculate_signals demo_update_timeindex demo_update_signal
           demo_execute_order demo_update_fill demo_inv demo_left
           (mac_world 1 10 w_dip)).
  - exact demo_inv_start.
  - exact demo_update_bars_runs_dry.
  - exact demo_calculate_signals_follows.
  - exact demo_update_timeindex_follows.
  - exact demo_update_signal_follows.
  - exact demo_execute_order_follows.
  - exact demo_update_fill_follows.
Defined.

(** The run over the prices 2, 1, 3: four calls of [update_bars()],
    two signals, two orders, two fills, and nothing left in the queue. *)
Example demo_run_counts :
  (fun o => match o with
            | Some (res, b) =>
                Some (res, length (List.filter
                                     (fun o => match o with
                                               | ObsUpdateBars _ => true
                                               | _ => false
                                               end) (trace b)),
                      signals b, orders b, fills b, events b)
            | None => None
            end) (demo_run 10)
  = Some (Val tt, 4%nat, 2%nat, 2%nat, 2%nat, []).
Proof. vm_compute. reflexivity. Qed.

End BacktestExamples.

Section LookupErrorExamples.

Import Backtest BacktestSpec Examples MoreExamples.

Lemma untracked_symbol_lookup_error_witness :
  is_LookupError KeyError = true
  ∧ DataSpec.fails_untracked (Data.get_latest_bar "AREX")
      (snd (Data.update_bars w_two))
  ∧ DataSpec.fails_untracked (Data.get_latest_bars "AREX" 100)
      (snd (Data.update_bars w_two))
  ∧ DataSpec.fails_untracked (Data.get_latest_bar_value "AREX" "close")
      (snd (Data.update_bars w_two))
  ∧ DataSpec.fails_untracked (Data.get_latest_bars_values "AREX" "close" 100)
      (snd (Data.update_bars w_two))
  ∧ DataSpec.fails_untracked (Data.get_latest_bar_datetime "AREX")
      (snd (Data.update_bars w_two))
  ∧ _run_backtest pairs_continue pairs_update_bars pairs_calculate_signals
      idle idle idle idle 2 (init pairs_on_aapl)
    = Some (Raise KeyError,
            mkState
              (snd (fst (pairs_calculate_signals MarketEvent
                           (snd (fst (pairs_update_bars pairs_on_aapl))))))
              [] (signals (init pairs_on_aapl)) (orders (init pairs_on_aapl))
              (fills (init pairs_on_aapl))
              (trace (init pairs_on_aapl)
               ++ [ObsUpdateBars []; ObsPut MarketEvent; ObsGet MarketEvent;
                   ObsCall "calculate_signals" MarketEvent]
               ++ (ObsPut <$> []))).
Proof.
  apply (untracked_symbol_lookup_error pairs_continue pairs_update_bars
           pairs_calculate_signals idle idle idle idle
           (snd (Data.update_bars w_two)) "AREX" "close" 100 0
           (init pairs_on_aapl)
           (snd (fst (pairs_update_bars pairs_on_aapl)))
           (snd (fst (pairs_calculate_signals MarketEvent
                        (snd (fst (pairs_update_bars pairs_on_aapl))))))
           []).
  - apply DataSpec.reach_update, DataSpec.reach_init.
  - decide_by_compute.
  - vm_compute. reflexivity.
  - reflexivity.
  - vm_compute. reflexivity.
  - vm_compute. reflexivity.
Defined.

(** C9 as stated fails: the error does end the run.  The orchestrator
    with the pairs strategy on a bar source that tracks AAPL alone: the
    first Market event makes the strategy ask for the closes of AREX, the
    lookup raises [KeyError], nothing catches it, and [_run_backtest]
    ends with it after one call of a role, while [continue_backtest] still
    holds and a bar remains unread. *)
Lemma untracked_symbol_ends_run :
  ("AREX" ∉ Data.symbol_list (Data.bars (IntradayMr.dw pairs_on_aapl)))
  ∧ (∃ b,
       pairs_run 2 = Some (Raise KeyError, b)
       ∧ pairs_run 10 = Some (Raise KeyError, b)
       ∧ pairs_continue (roles b) = true
       ∧ calls_of (trace b) = [("calculate_signals", MarketEvent)]
       ∧ Data.symbol_data (Data.bars (IntradayMr.dw (roles b))) !! "AAPL"
         = Some [(2%Z, rising "AAPL" 2)]).
Proof.
  split; [decide_by_compute |].
  eexists. split; [vm_compute; reflexivity |].
  split_and!; vm_compute; reflexivity.
Qed.

End LookupErrorExamples.
